(** * The JOS kernel monitor (kern/monitor.c)

    A shallow embedding of the command interpreter of the JOS kernel
    monitor and of its five commands, followed by the properties of the
    monitor's specification that were checked against it.

    Conventions of the embedding.
    - [uint32_t], [uintptr_t] and [pte_t] values are integers of [Z] in
      [0, 2^32); every C operation that can leave that range is followed
      by an explicit [to_u32].  [int] values that matter are wrapped by
      [to_s32].
    - Kernel memory is a map from addresses to 32-bit words.
    - Console output and the calls to the page-table accessor are
      collected, in program order, in a trace of [event]s: a [Cprintf]
      carries the format string exactly as it is spelled in the source
      (the two characters backslash-n stand for the newline escape) and
      the list of the arguments passed after it.
    - Loops that the C code does not bound take a fuel argument; running
      out of fuel is the outcome [OutOfFuel].
    - The [struct Trapframe *tf] argument is never read by any handler
      and is left out. *)

From Stdlib Require Import ZArith String Ascii List Lia Bool.
From stdpp Require Import base list.
Import ListNotations.

Local Open Scope Z_scope.

(** ** Machine integers *)

Definition to_u32 (z : Z) : Z := z mod 2 ^ 32.

Definition to_s32 (z : Z) : Z :=
  let u := to_u32 z in if u <? 2 ^ 31 then u else u - 2 ^ 32.

(** ** Constants of the included headers *)

(** Modelled from the spec: [KERNBASE] comes from inc/memlayout.h, which
    is not part of the sources at hand; the specification's scenario fixes
    the virtual-to-physical offset to 0xF0000000. *)
Definition KERNBASE : Z := 0xF0000000.

(** Modelled from the spec: [PGSIZE], [PTE_P], [PTE_W], [PTE_U] and
    [PTE_ADDR] come from inc/mmu.h, which is not part of the sources at
    hand.  The specification describes the entry as an x86 32-bit
    page-table entry: present, writeable and user are the three lowest
    bits, the frame address is everything above the 12-bit page offset,
    and a page is 4096 bytes. *)
Definition PGSIZE : Z := 4096.
Definition PTE_P : Z := 1.
Definition PTE_W : Z := 2.
Definition PTE_U : Z := 4.
Definition PTE_ADDR (pte : Z) : Z := Z.land pte (to_u32 (Z.lnot 0xFFF)).

(** Modelled from the spec: [ROUNDDOWN] and [ROUNDUP] come from
    inc/types.h, which is not part of the sources at hand.  They round
    within [uint32_t] and cast the result back to the type of the first
    argument; the only use in the monitor has an [int] (pointer
    difference) first argument and rounds up to a kilobyte. *)
Definition ROUNDDOWN_int (a n : Z) : Z :=
  let a' := to_u32 a in to_s32 (a' - a' mod n).
Definition ROUNDUP_int (a n : Z) : Z :=
  let n' := to_u32 n in ROUNDDOWN_int (to_u32 (to_u32 a + n' - 1)) n'.

Definition CMDBUF_SIZE : Z := 80.
Definition MAXARGS : nat := 16.

(** ** Traces, outcomes, memory *)

Inductive arg : Type :=
| AInt (z : Z)
| AStr (s : string).

Inductive event : Type :=
| Cprintf (fmt : string) (args : list arg)
| PgdirWalk (va : Z) (create : Z)
| PanicMsg (fmt : string).

Inductive outcome : Type :=
| Returned (r : Z)
| Panicked
| NullDeref
| OutOfBounds
| OutOfFuel.

Definition memory : Type := Z -> Z.

Definition mem_write (m : memory) (p v : Z) : memory :=
  fun q => if q =? p then v else m q.

Record Run : Type := mkRun {
  result : outcome;
  trace : list event;
  final : memory
}.

(** ** The kernel around the monitor *)

Record Eipdebuginfo : Type := {
  eip_file : string;
  eip_line : Z;
  eip_fn_name : string;
  eip_fn_namelen : Z;
  eip_fn_addr : Z
}.

(** What the monitor takes from the rest of the kernel: the link
    symbols, the saved base pointer, the debug-information resolver
    ([None] for a non-zero return value), the page-table accessor on
    [kern_pgdir] ([None] for a null pointer) and [strtol]. *)
Record Kernel : Type := {
  sym_start : Z;
  sym_entry : Z;
  sym_etext : Z;
  sym_edata : Z;
  sym_end : Z;
  read_ebp : Z;
  debuginfo_eip : Z -> option Eipdebuginfo;
  pgdir_walk : Z -> option Z;
  strtol : string -> Z -> Z
}.

Inductive handler : Type :=
| Mon_help
| Mon_kerninfo
| Mon_backtrace
| Mon_showmapping
| Mon_setpermission.

Record Command : Type := {
  name : string;
  desc : string;
  func : handler
}.

Definition commands : list Command :=
  [ {| name := "help"; desc := "Display this list of commands"; func := Mon_help |};
    {| name := "kerninfo"; desc := "Display information about the kernel"; func := Mon_kerninfo |};
    {| name := "backtrace"; desc := "Display backtrack of the call"; func := Mon_backtrace |};
    {| name := "showmappings"; desc := "Display virtual/linear to physical mapping"; func := Mon_showmapping |};
    {| name := "setpremission"; desc := "Set permission of page table"; func := Mon_setpermission |} ].

(** [argv[i]], and [argv[i][0]] (the terminator for an empty string). *)
Definition argv_at (argv : list string) (i : nat) : string :=
  List.nth i argv EmptyString.

Definition first_char (s : string) : ascii :=
  match s with
  | String c _ => c
  | EmptyString => Ascii.zero
  end.

Section Handlers.

Variable K : Kernel.

(** *** help *)

Definition mon_help (argc : Z) (argv : list string) (m : memory) : Run :=
  mkRun (Returned 0)
        (List.map (fun c => Cprintf "%s - %s\n" [AStr (name c); AStr (desc c)]) commands)
        m.

(** *** kerninfo *)

Definition footprint_kb : Z :=
  Z.quot (ROUNDUP_int (to_s32 (sym_end K - sym_entry K)) 1024) 1024.

Definition mon_kerninfo (argc : Z) (argv : list string) (m : memory) : Run :=
  mkRun (Returned 0)
    [ Cprintf "Special kernel symbols:\n" [];
      Cprintf "  _start                  %08x (phys)\n" [AInt (sym_start K)];
      Cprintf "  entry  %08x (virt)  %08x (phys)\n"
        [AInt (sym_entry K); AInt (to_u32 (sym_entry K - KERNBASE))];
      Cprintf "  etext  %08x (virt)  %08x (phys)\n"
        [AInt (sym_etext K); AInt (to_u32 (sym_etext K - KERNBASE))];
      Cprintf "  edata  %08x (virt)  %08x (phys)\n"
        [AInt (sym_edata K); AInt (to_u32 (sym_edata K - KERNBASE))];
      Cprintf "  end    %08x (virt)  %08x (phys)\n"
        [AInt (sym_end K); AInt (to_u32 (sym_end K - KERNBASE))];
      Cprintf "Kernel executable memory footprint: %dKB\n" [AInt footprint_kb] ]
    m.

(** *** backtrace *)

Definition word_at (m : memory) (ebp off : Z) : Z := m (to_u32 (ebp + off)).

Definition frame_line (m : memory) (ebp : Z) : event :=
  Cprintf "  ebp %08x eip %08x args %08x %08x %08x %08x %08x\n"
    [ AInt ebp; AInt (word_at m ebp 4); AInt (word_at m ebp 8);
      AInt (word_at m ebp 12); AInt (word_at m ebp 16);
      AInt (word_at m ebp 20); AInt (word_at m ebp 24) ].

Definition symbol_line (m : memory) (ebp : Z) : list event :=
  let eip := word_at m ebp 4 in
  match debuginfo_eip K eip with
  | Some info =>
      [ Cprintf "  		%s:%d %.*s+%d\n"
          [ AStr (eip_file info); AInt (eip_line info);
            AInt (eip_fn_namelen info); AStr (eip_fn_name info);
            AInt (to_u32 (eip - eip_fn_addr info)) ] ]
  | None => []
  end.

(** The [while (ebp != 0)] loop together with the [return 0] after it. *)
Fixpoint backtrace_loop (fuel : nat) (m : memory) (ebp : Z) : outcome * list event :=
  match fuel with
  | O => (OutOfFuel, [])
  | S fuel' =>
      if ebp =? 0 then (Returned 0, [])
      else
        let '(r, t) := backtrace_loop fuel' m (m ebp) in
        (r, frame_line m ebp :: symbol_line m ebp ++ t)
  end.

Definition mon_backtrace (fuel : nat) (argc : Z) (argv : list string) (m : memory) : Run :=
  let ebp := read_ebp K in
  let '(r, t) := backtrace_loop fuel m ebp in
  mkRun r (Cprintf "Stack backtrace:\n" [] :: t) m.

(** *** showmappings *)

Definition flag (e mask : Z) : Z := if Z.land e mask =? 0 then 0 else 1.

(** The block that tests the present bit of the entry and prints one of
    two lines; the source repeats it in [mon_showmapping] and twice in
    [mon_setpermission]. *)
Definition print_entry (va e : Z) : event :=
  if Z.land e PTE_P =? 0
  then Cprintf "0x%x: page table entry doesn't exist.\n" [AInt va]
  else Cprintf "Virtual address: 0x%x, physical address: 0x%x\n  PTE_P: %d, PTE_W: %d, PTE_U: %d\n"
         [ AInt va; AInt (PTE_ADDR e);
           AInt (flag e PTE_P); AInt (flag e PTE_W); AInt (flag e PTE_U) ].

Definition panic_walk : event := PanicMsg "pgdir_walk out of memory.\n".

(** The [while (begin <= end)] loop together with the [return 0] after
    it; [panic] does not return. *)
Fixpoint showmapping_loop (fuel : nat) (m : memory) (begin end_ : Z) : outcome * list event :=
  match fuel with
  | O => (OutOfFuel, [])
  | S fuel' =>
      if begin <=? end_ then
        match pgdir_walk K begin with
        | None => (Panicked, [PgdirWalk begin 0; panic_walk])
        | Some entry =>
            let '(r, t) := showmapping_loop fuel' m (to_u32 (begin + PGSIZE)) end_ in
            (r, PgdirWalk begin 0 :: print_entry begin (m entry) :: t)
        end
      else (Returned 0, [])
  end.

Definition mon_showmapping (fuel : nat) (argc : Z) (argv : list string) (m : memory) : Run :=
  if negb (argc =? 3) then
    mkRun (Returned 0) [Cprintf "Usage: showmappings BEGIN_ADDR END_ADDR\n" []] m
  else
    let begin := to_u32 (strtol K (argv_at argv 1) 16) in
    let end_ := to_u32 (strtol K (argv_at argv 2) 16) in
    let diag :=
      if (begin <? 0) || (end_ <? 0) || (begin >? end_)
      then [Cprintf "Invalid address input.\n" []] else [] in
    let '(r, t) := showmapping_loop fuel m begin end_ in
    mkRun r (diag ++ t) m.

(** *** setpermission *)

Definition perm_mask (perm : ascii) : Z :=
  if Ascii.eqb perm "p" then PTE_P
  else if Ascii.eqb perm "w" then PTE_W
  else if Ascii.eqb perm "u" then PTE_U
  else 0.

Definition apply_perm (set : ascii) (e p : Z) : Z :=
  if Ascii.eqb set "s" then Z.lor e (to_u32 p)
  else if Ascii.eqb set "c" then Z.land e (to_u32 (Z.lnot p))
  else e.

Definition mon_setpermission (argc : Z) (argv : list string) (m : memory) : Run :=
  if negb (argc =? 4) then
    mkRun (Returned 0) [Cprintf "Usage: setpermission ADDR [s|c] [p|w|u]\n" []] m
  else
    let addr := to_u32 (strtol K (argv_at argv 1) 16) in
    let set := first_char (argv_at argv 2) in
    let perm := first_char (argv_at argv 3) in
    let before := [PgdirWalk addr 0; Cprintf "Before setting:\n" []] in
    match pgdir_walk K addr with
    | None => mkRun NullDeref before m
    | Some entry =>
        let p := perm_mask perm in
        let e' := apply_perm set (m entry) p in
        mkRun (Returned 0)
          (before ++ [ print_entry addr (m entry);
                       Cprintf "After setting:\n" [];
                       print_entry addr e' ])
          (mem_write m entry e')
    end.

Definition run_handler (h : handler) (fuel : nat) (argc : Z) (argv : list string)
    (m : memory) : Run :=
  match h with
  | Mon_help => mon_help argc argv m
  | Mon_kerninfo => mon_kerninfo argc argv m
  | Mon_backtrace => mon_backtrace fuel argc argv m
  | Mon_showmapping => mon_showmapping fuel argc argv m
  | Mon_setpermission => mon_setpermission argc argv m
  end.

End Handlers.

(** ** The command interpreter *)

Definition NUL : ascii := "000"%char.

Definition WHITESPACE : list ascii := [ "009"; "013"; "010"; " " ]%char.

(** [strchr(s, c) != 0] for the string [s]. *)
Definition strchr (s : list ascii) (c : ascii) : bool :=
  existsb (Ascii.eqb c) s.

(** The line buffer is split at the position of [buf]: [pre] holds the
    bytes below the pointer, [suf] the bytes from the pointer on, so that
    the byte at [buf] is the head of [suf] and the pointer value is [length pre].
    Reading with an empty [suf] is a read past the end of the array. *)

(** The loop that gobbles whitespace: while the byte at [buf] is neither
    the terminator nor outside [WHITESPACE], overwrite it with the
    terminator and advance. *)
Fixpoint gobble (pre suf : list ascii) : option (list ascii * list ascii) :=
  match suf with
  | [] => None
  | c :: suf' =>
      if negb (Ascii.eqb c NUL) && strchr WHITESPACE c
      then gobble (pre ++ [NUL]) suf'
      else Some (pre, suf)
  end.

(** The loop that scans past an argument: while the byte at [buf] is
    neither the terminator nor in [WHITESPACE], advance. *)
Fixpoint scan_arg (pre suf : list ascii) : option (list ascii * list ascii) :=
  match suf with
  | [] => None
  | c :: suf' =>
      if negb (Ascii.eqb c NUL) && negb (strchr WHITESPACE c)
      then scan_arg (pre ++ [c]) suf'
      else Some (pre, suf)
  end.

(** How the parsing loop ends.  An [argv] slot is [Some off] for a
    pointer to offset [off] of the line buffer and [None] for a null
    pointer. *)
Inductive parsed : Type :=
| Args (argc : nat) (argv : list (option nat)) (buf : list ascii)
| TooMany (buf : list ascii)
| BadRead
| Unfinished.

(** The [while (1)] loop of [runcmd]. *)
Fixpoint parse_args (fuel : nat) (argc : nat) (argv : list (option nat))
    (pre suf : list ascii) : parsed :=
  match fuel with
  | O => Unfinished
  | S fuel' =>
      match gobble pre suf with
      | None => BadRead
      | Some (pre1, suf1) =>
          match suf1 with
          | [] => BadRead
          | c :: _ =>
              if Ascii.eqb c NUL then Args argc argv (pre1 ++ suf1)
              else if Nat.eqb argc (MAXARGS - 1) then TooMany (pre1 ++ suf1)
              else
                let argv' := <[argc := Some (length pre1)]> argv in
                match scan_arg pre1 suf1 with
                | None => BadRead
                | Some (pre2, suf2) => parse_args fuel' (S argc) argv' pre2 suf2
                end
          end
      end
  end.

(** Lines 196 to 214: [argv0] is whatever the sixteen slots of the
    uninitialised array hold on entry.  Every round of the loop advances
    the pointer or leaves, so one more round than the buffer has bytes is
    enough fuel. *)
Definition tokenize (argv0 : list (option nat)) (buf : list ascii) : parsed :=
  match parse_args (S (length buf)) 0 (<[0%nat := None]> argv0) [] buf with
  | Args argc argv buf' => Args argc (<[argc := None]> argv) buf'
  | r => r
  end.

(** The null-terminated string that starts at a pointer. *)
Fixpoint cstring (l : list ascii) : string :=
  match l with
  | [] => EmptyString
  | c :: l' => if Ascii.eqb c NUL then EmptyString else String c (cstring l')
  end.

Definition string_at (buf : list ascii) (p : option nat) : string :=
  match p with
  | Some off => cstring (drop off buf)
  | None => EmptyString
  end.

(** The [for] loop over [commands]; [strcmp(a, b) == 0] is equality of
    the two strings. *)
Fixpoint lookup_command (cmds : list Command) (arg0 : string) : option Command :=
  match cmds with
  | [] => None
  | c :: cmds' =>
      if String.eqb arg0 (name c) then Some c else lookup_command cmds' arg0
  end.

(** What [runcmd] decides before it returns or calls a handler. *)
Inductive selection : Type :=
| Drop (out : list event)
| Invoke (h : handler) (argc : Z) (argv : list string)
| Overrun.

Definition select (argv0 : list (option nat)) (buf : list ascii) : selection :=
  match tokenize argv0 buf with
  | TooMany _ =>
      Drop [Cprintf "Too many arguments (max %d)\n" [AInt (Z.of_nat MAXARGS)]]
  | Args argc argv buf' =>
      if Nat.eqb argc 0 then Drop []
      else
        let args := List.map (string_at buf') (take argc argv) in
        match lookup_command commands (argv_at args 0) with
        | Some c => Invoke (func c) (Z.of_nat argc) args
        | None => Drop [Cprintf "Unknown command '%s'\n" [AStr (argv_at args 0)]]
        end
  | BadRead | Unfinished => Overrun
  end.

Definition runcmd (K : Kernel) (fuel : nat) (argv0 : list (option nat))
    (buf : list ascii) (m : memory) : Run :=
  match select argv0 buf with
  | Drop out => mkRun (Returned 0) out m
  | Invoke h argc argv => run_handler K h fuel argc argv m
  | Overrun => mkRun OutOfBounds [] m
  end.

(** *** The monitor loop *)

(** What the console delivers at one call of [readline]: the line buffer
    ([None] for a null pointer), together with what the sixteen slots of
    the [argv] array of [runcmd] hold when that line is run. *)
Record console_input : Type := {
  slots : list (option nat);
  typed : option (list ascii)
}.

(** The trace of [monitor]: the events of monitor.c itself, the call of
    [print_trapframe] and the calls of [readline] with their prompt. *)
Inductive monitor_event : Type :=
| Ran (e : event)
| PrintTrapframe
| Readline (prompt : string).

(** How a run of [monitor] on finitely many console inputs ends: by the
    [break] after a negative handler result, inside a [readline] that has
    nothing more to deliver, or inside a command that does not return. *)
Inductive monitor_end : Type :=
| Exited
| AwaitingInput
| Stopped (o : outcome).

Record MonitorRun : Type := mkMonitorRun {
  ending : monitor_end;
  output : list monitor_event;
  memory_after : memory
}.

(** The [while (1)] loop of [monitor]. *)
Fixpoint monitor_loop (K : Kernel) (fuel : nat) (inputs : list console_input)
    (m : memory) : MonitorRun :=
  match inputs with
  | [] => mkMonitorRun AwaitingInput [Readline "K> "] m
  | input :: inputs' =>
      match typed input with
      | None =>
          let rest := monitor_loop K fuel inputs' m in
          mkMonitorRun (ending rest) (Readline "K> " :: output rest) (memory_after rest)
      | Some buf =>
          let r := runcmd K fuel (slots input) buf m in
          let out := Readline "K> " :: List.map Ran (trace r) in
          match result r with
          | Returned v =>
              if v <? 0 then mkMonitorRun Exited out (final r)
              else
                let rest := monitor_loop K fuel inputs' (final r) in
                mkMonitorRun (ending rest) (out ++ output rest) (memory_after rest)
          | o => mkMonitorRun (Stopped o) out (final r)
          end
      end
  end.

(** [monitor]; [tf] says whether the trap frame pointer is non-null. *)
Definition monitor (K : Kernel) (fuel : nat) (tf : bool)
    (inputs : list console_input) (m : memory) : MonitorRun :=
  let rest := monitor_loop K fuel inputs m in
  mkMonitorRun (ending rest)
    (Ran (Cprintf "Welcome to the JOS kernel monitor!\n" []) ::
     Ran (Cprintf "Type 'help' for a list of commands.\n" []) ::
     (if tf then [PrintTrapframe] else []) ++ output rest)
    (memory_after rest).

(** ** Reference definitions taken from the specification *)

(** The whitespace class of the specification. *)
Definition is_space (c : ascii) : bool :=
  Ascii.eqb c " " || Ascii.eqb c "009" || Ascii.eqb c "013" || Ascii.eqb c "010".

(** The tokens of a line: its maximal runs of characters that are not
    whitespace. *)
Fixpoint tokens (line : list ascii) : list (list ascii) :=
  match line with
  | [] => []
  | c :: line' =>
      if is_space c then tokens line'
      else
        match line' with
        | [] => [[c]]
        | c' :: _ =>
            if is_space c' then [c] :: tokens line'
            else
              match tokens line' with
              | tok :: toks => (c :: tok) :: toks
              | [] => [[c]]
              end
        end
  end.

(** The line with every whitespace byte overwritten by a terminator. *)
Definition blank (c : ascii) : ascii := if is_space c then NUL else c.

(** A chain of saved frame pointers that starts at [ebp], lists its
    non-zero frame pointers in order and ends at a saved zero. *)
Fixpoint fp_chain (m : memory) (ebp : Z) (fps : list Z) : Prop :=
  match fps with
  | [] => ebp = 0
  | fp :: fps' => ebp = fp /\ fp <> 0 /\ fp_chain m (m fp) fps'
  end.

(** The address the [k]-th round of [showmappings] looks at, as long as
    the addition has not wrapped. *)
Definition nth_addr (begin : Z) (k : nat) : Z := begin + Z.of_nat k * PGSIZE.

Definition is_walk (e : event) : bool :=
  match e with
  | PgdirWalk _ _ => true
  | _ => false
  end.

Definition is_frame_line (e : event) : bool :=
  match e with
  | Cprintf fmt _ =>
      String.eqb fmt "  ebp %08x eip %08x args %08x %08x %08x %08x %08x\n"
  | _ => false
  end.

Definition count (p : event -> bool) (t : list event) : nat :=
  length (List.filter p t).

(** The three permission bits the editor can target, with the selector
    character, the mask and the bit position of each. *)
Inductive perm_bit : Type := BitP | BitW | BitU.

Definition selector (b : perm_bit) : ascii :=
  match b with
  | BitP => "p"
  | BitW => "w"
  | BitU => "u"
  end%char.

Definition mask (b : perm_bit) : Z :=
  match b with
  | BitP => PTE_P
  | BitW => PTE_W
  | BitU => PTE_U
  end.

Definition bit_index (b : perm_bit) : Z :=
  match b with
  | BitP => 0
  | BitW => 1
  | BitU => 2
  end.

(** Modelled from the spec: [strtol] lives in lib/string.c, which is not
    part of the sources at hand.  The specification only says that the
    addresses are hexadecimal with an optional leading 0x; this stand-in
    reads such a numeral and stops at the first other character.  It is
    used to build concrete kernels, never inside the handlers, which take
    [strtol] from the [Kernel] record. *)
Definition hex_digit (c : ascii) : option Z :=
  let n := Z.of_nat (nat_of_ascii c) in
  if (48 <=? n) && (n <=? 57) then Some (n - 48)
  else if (97 <=? n) && (n <=? 102) then Some (n - 87)
  else if (65 <=? n) && (n <=? 70) then Some (n - 55)
  else None.

Fixpoint hex_digits (s : string) (val : Z) : Z :=
  match s with
  | EmptyString => val
  | String c s' =>
      match hex_digit c with
      | Some d => hex_digits s' (val * 16 + d)
      | None => val
      end
  end.

Definition hex_strtol (s : string) (base : Z) : Z :=
  match s with
  | String "0" (String "x" s') => hex_digits s' 0
  | _ => hex_digits s 0
  end.

(** A kernel image linked at the addresses of the specification's
    scenario, with an accessor that hands out the entry of page [va] at
    address [va / PGSIZE * 4] of a linear table, and one whose accessor
    never finds a page table. *)
Definition demo_kernel : Kernel :=
  {| sym_start := 0x0010000C;
     sym_entry := 0xF0100000;
     sym_etext := 0xF0101A00;
     sym_edata := 0xF0112300;
     sym_end := 0xF0120000;
     read_ebp := 0xF010FF00;
     debuginfo_eip := fun _ => None;
     pgdir_walk := fun va => Some (0xEFC00000 + va / PGSIZE * 4);
     strtol := hex_strtol |}.

Definition bare_kernel : Kernel :=
  {| sym_start := 0x0010000C;
     sym_entry := 0xF0100000;
     sym_etext := 0xF0101A00;
     sym_edata := 0xF0112300;
     sym_end := 0xF0120000;
     read_ebp := 0;
     debuginfo_eip := fun _ => None;
     pgdir_walk := fun _ => None;
     strtol := hex_strtol |}.

(** A memory in which only the page at 0x2000 is mapped, present and
    writeable, and which holds two stack frames. *)
Definition demo_memory : memory :=
  fun a =>
    if a =? 0xEFC00008 then 0x00155003
    else if a =? 0xF010FF00 then 0xF010FF40
    else if a =? 0xF010FF04 then 0xF0100A10
    else if a =? 0xF010FF40 then 0
    else if a =? 0xF010FF44 then 0xF010003E
    else 0.

(** ** Auxiliary definitions for the statements *)

Definition is_panic (e : event) : bool :=
  match e with
  | PanicMsg _ => true
  | _ => false
  end.

(** The events of one frame of the backtrace. *)
Definition frame_events (K : Kernel) (m : memory) (fp : Z) : list event :=
  frame_line m fp :: symbol_line K m fp.

(** The events of one round of the loop at address [a], and of the first
    [n] rounds from [begin] on. *)
Definition round_events (K : Kernel) (m : memory) (a : Z) : list event :=
  match pgdir_walk K a with
  | Some entry => [PgdirWalk a 0; print_entry a (m entry)]
  | None => [PgdirWalk a 0; panic_walk]
  end.

Definition rounds (K : Kernel) (m : memory) (begin : Z) (n : nat) : list event :=
  flat_map (round_events K m) (List.map (nth_addr begin) (seq 0 n)).

(** The buffer holds the token [tok], followed by a terminator, at
    offset [off]. *)
Definition token_at (buf : list ascii) (off : nat) (tok : list ascii) : Prop :=
  Forall (fun c => c <> NUL) tok /\
  exists tail, drop off buf = tok ++ NUL :: tail.

Definition starts_word (l : list ascii) : Prop :=
  match l with
  | [] => True
  | c :: _ => is_space c = false
  end.

Definition starts_gap (l : list ascii) : Prop :=
  match l with
  | [] => True
  | c :: _ => is_space c = true
  end.

(** A memory whose only frame points back at itself. *)
Definition looping_memory : memory :=
  fun a => if a =? 0xF010FF00 then 0xF010FF00 else 0.

(** The [n]-fold saved frame pointer above [ebp]. *)
Fixpoint saved_fp (m : memory) (n : nat) (ebp : Z) : Z :=
  match n with
  | O => ebp
  | S n' => saved_fp m n' (m ebp)
  end.

Ltac no_NUL := repeat (constructor; [discriminate |]); constructor.

(** ** Arithmetic of 32-bit words *)

Lemma to_u32_small (z : Z) : 0 <= z < 2 ^ 32 -> to_u32 z = z.
Proof. intros H. unfold to_u32. apply Z.mod_small. exact H. Qed.

Lemma to_u32_range (z : Z) : 0 <= to_u32 z < 2 ^ 32.
Proof. unfold to_u32. apply Z.mod_pos_bound. lia. Qed.

Lemma to_u32_ones (z : Z) : to_u32 z = Z.land z (Z.ones 32).
Proof. unfold to_u32. symmetry. apply Z.land_ones. lia. Qed.

Lemma word_high_bits (e i : Z) :
  0 <= e < 2 ^ 32 -> 32 <= i -> Z.testbit e i = false.
Proof.
  intros He Hi.
  rewrite <- (to_u32_small e He), to_u32_ones, Z.land_spec.
  rewrite Z.testbit_ones_nonneg by lia.
  replace (i <? 32) with false by (symmetry; apply Z.ltb_ge; lia).
  apply andb_false_r.
Qed.

Lemma disjoint_bits (e p i : Z) :
  Z.land e p = 0 -> Z.testbit e i && Z.testbit p i = false.
Proof.
  intros H. rewrite <- Z.land_spec, H. apply Z.bits_0.
Qed.

Lemma mask_range (b : perm_bit) : 0 <= mask b < 2 ^ 32.
Proof. destruct b; unfold mask, PTE_P, PTE_W, PTE_U; lia. Qed.

Lemma mask_pow2 (b : perm_bit) : mask b = 2 ^ bit_index b.
Proof. destruct b; reflexivity. Qed.

Lemma perm_mask_selector (b : perm_bit) : perm_mask (selector b) = mask b.
Proof. destruct b; reflexivity. Qed.

Lemma apply_perm_set (e p : Z) (rest : string) :
  0 <= p < 2 ^ 32 -> apply_perm (first_char (String "s" rest)) e p = Z.lor e p.
Proof. intros Hp. cbn. unfold apply_perm. cbn. now rewrite to_u32_small. Qed.

Lemma apply_perm_clear (e p : Z) (rest : string) :
  0 <= e < 2 ^ 32 -> Z.land e p = 0 ->
  apply_perm (first_char (String "c" rest)) (Z.lor e p) p = e.
Proof.
  intros He Hd. cbn. unfold apply_perm. cbn.
  rewrite to_u32_ones.
  apply Z.bits_inj'. intros i Hi.
  rewrite !Z.land_spec, Z.lor_spec, Z.lnot_spec by lia.
  rewrite Z.testbit_ones_nonneg by lia.
  pose proof (disjoint_bits e p i Hd) as Hb.
  destruct (Z.ltb_spec i 32) as [Hlt | Hge].
  - destruct (Z.testbit e i), (Z.testbit p i); cbn in *; congruence.
  - rewrite (word_high_bits e i He Hge). cbn.
    destruct (Z.testbit p i); reflexivity.
Qed.

(** ** setpermission *)

Lemma mon_setpermission_found (K : Kernel) (m : memory) (a0 a1 a2 a3 : string)
    (entry : Z) :
  pgdir_walk K (to_u32 (strtol K a1 16)) = Some entry ->
  let addr := to_u32 (strtol K a1 16) in
  let e' := apply_perm (first_char a2) (m entry) (perm_mask (first_char a3)) in
  mon_setpermission K 4 [a0; a1; a2; a3] m =
    mkRun (Returned 0)
      [ PgdirWalk addr 0; Cprintf "Before setting:\n" [];
        print_entry addr (m entry);
        Cprintf "After setting:\n" [];
        print_entry addr e' ]
      (mem_write m entry e').
Proof.
  intros Hw. unfold mon_setpermission. cbn [Z.eqb Pos.eqb negb argv_at List.nth].
  rewrite Hw. reflexivity.
Qed.

Lemma mem_write_same (m : memory) (p v : Z) : mem_write m p v p = v.
Proof. unfold mem_write. now rewrite Z.eqb_refl. Qed.

Lemma mem_write_other (m : memory) (p v q : Z) : q <> p -> mem_write m p v q = m q.
Proof.
  intros Hq. unfold mem_write.
  destruct (Z.eqb_spec q p); [contradiction | reflexivity].
Qed.

(** C1.  Take an entry word [e] whose bit B (one of P, W, U) is clear.
    [setpermission ADDR s B] stores [e | B]: bit B is now set and every
    other bit of the word, and every other word of memory, is as before.
    [setpermission ADDR c B] on the result stores the original word [e]
    again, so memory is back to what it was. *)
Theorem setpermission_roundtrip (K : Kernel) (m : memory) (b : perm_bit)
    (a0 a1 s_rest c_rest p_rest : string) (entry : Z) :
  pgdir_walk K (to_u32 (strtol K a1 16)) = Some entry ->
  0 <= m entry < 2 ^ 32 ->
  Z.land (m entry) (mask b) = 0 ->
  let e := m entry in
  let sel := String (selector b) p_rest in
  let r1 := mon_setpermission K 4 [a0; a1; String "s" s_rest; sel] m in
  let r2 := mon_setpermission K 4 [a0; a1; String "c" c_rest; sel] (final r1) in
  result r1 = Returned 0 /\
  final r1 entry = Z.lor e (mask b) /\
  (forall i, 0 <= i ->
     Z.testbit (final r1 entry) i = if i =? bit_index b then true else Z.testbit e i) /\
  (forall q, q <> entry -> final r1 q = m q) /\
  result r2 = Returned 0 /\
  final r2 entry = e /\
  (forall q, final r2 q = m q).
Proof.
  intros Hw He Hclear e sel r1 r2.
  assert (Hset : final r1 entry = Z.lor e (mask b)).
  { subst r1. rewrite (mon_setpermission_found K m _ _ _ _ entry Hw).
    cbn [final]. rewrite mem_write_same. subst sel.
    change (first_char (String (selector b) p_rest)) with (selector b).
    rewrite perm_mask_selector. apply apply_perm_set, mask_range. }
  assert (Hback : final r2 entry = e).
  { subst r2. rewrite (mon_setpermission_found K (final r1) _ _ _ _ entry Hw).
    cbn [final]. rewrite mem_write_same, Hset. subst sel.
    change (first_char (String (selector b) p_rest)) with (selector b).
    rewrite perm_mask_selector. apply apply_perm_clear; assumption. }
  assert (Hframe : forall q, q <> entry -> final r1 q = m q).
  { intros q Hq. subst r1. rewrite (mon_setpermission_found K m _ _ _ _ entry Hw).
    cbn [final]. now apply mem_write_other. }
  repeat split.
  - subst r1. now rewrite (mon_setpermission_found K m _ _ _ _ entry Hw).
  - exact Hset.
  - intros i Hi. rewrite Hset, Z.lor_spec, mask_pow2.
    rewrite Z.pow2_bits_eqb by (destruct b; cbn; lia).
    rewrite (Z.eqb_sym (bit_index b) i).
    destruct (i =? bit_index b); [apply orb_true_r | apply orb_false_r].
  - exact Hframe.
  - subst r2. now rewrite (mon_setpermission_found K (final r1) _ _ _ _ entry Hw).
  - exact Hback.
  - intros q. destruct (Z.eq_dec q entry) as [-> | Hq]; [exact Hback |].
    subst r2. rewrite (mon_setpermission_found K (final r1) _ _ _ _ entry Hw).
    cbn [final]. rewrite mem_write_other by exact Hq. now apply Hframe.
Qed.

Lemma setpermission_roundtrip_witness :
  let r1 := mon_setpermission demo_kernel 4
              ["setpermission"; "0x2000"; "s"; "u"]%string demo_memory in
  let r2 := mon_setpermission demo_kernel 4
              ["setpermission"; "0x2000"; "c"; "u"]%string (final r1) in
  Z.land (demo_memory 0xEFC00008) PTE_U = 0 /\
  final r1 0xEFC00008 = 0x00155007 /\
  final r2 0xEFC00008 = 0x00155003.
Proof.
  intros r1 r2.
  split; [reflexivity |].
  destruct (setpermission_roundtrip demo_kernel demo_memory BitU
              "setpermission" "0x2000" "" "" "" 0xEFC00008)
    as (_ & Hset & _ & _ & _ & Hback & _).
  - reflexivity.
  - vm_compute. split; [discriminate | reflexivity].
  - reflexivity.
  - split; [exact Hset | exact Hback].
Defined.

Lemma count_print_entry_panic (va e : Z) : is_panic (print_entry va e) = false.
Proof. unfold print_entry. now destruct (Z.land e PTE_P =? 0). Qed.

(** C9.  With four arguments [setpermission] has no null check and no
    panic branch: it calls the accessor, prints the heading and then
    dereferences whatever the accessor returned.  A null result makes that
    dereference undefined; any other result is read, modified, written
    back and printed again, and the handler returns 0. *)
Theorem setpermission_unchecked_handle (K : Kernel) (m : memory)
    (a0 a1 a2 a3 : string) :
  let addr := to_u32 (strtol K a1 16) in
  let r := mon_setpermission K 4 [a0; a1; a2; a3] m in
  match pgdir_walk K addr with
  | None =>
      r = mkRun NullDeref [PgdirWalk addr 0; Cprintf "Before setting:\n" []] m
  | Some entry =>
      let e' := apply_perm (first_char a2) (m entry) (perm_mask (first_char a3)) in
      r = mkRun (Returned 0)
            [ PgdirWalk addr 0; Cprintf "Before setting:\n" [];
              print_entry addr (m entry);
              Cprintf "After setting:\n" [];
              print_entry addr e' ]
            (mem_write m entry e')
  end /\
  result r <> Panicked /\
  count is_panic (trace r) = 0%nat.
Proof.
  intros addr r.
  destruct (pgdir_walk K addr) as [entry |] eqn:Hw.
  - pose proof (mon_setpermission_found K m a0 a1 a2 a3 entry Hw) as Hr.
    cbv zeta in Hr. fold addr in Hr. fold r in Hr.
    split; [exact Hr |]. rewrite Hr. cbn [result trace].
    split; [discriminate |].
    unfold count. cbn [List.filter is_panic].
    now rewrite !count_print_entry_panic.
  - assert (Hr : r = mkRun NullDeref [PgdirWalk addr 0; Cprintf "Before setting:\n" []] m).
    { subst r. unfold mon_setpermission.
      cbn [Z.eqb Pos.eqb negb argv_at List.nth]. fold addr. now rewrite Hw. }
    split; [exact Hr |]. rewrite Hr. cbn [result trace].
    split; [discriminate | reflexivity].
Qed.

(** ** kerninfo *)

Lemma roundup_kilobyte (d : Z) :
  0 <= d <= 2 ^ 31 - 1024 ->
  Z.quot (ROUNDUP_int (to_s32 d) 1024) 1024 = (d + 1023) / 1024.
Proof.
  intros Hd.
  assert (Hs : to_s32 d = d).
  { unfold to_s32. rewrite to_u32_small by lia.
    destruct (Z.ltb_spec d (2 ^ 31)); lia. }
  rewrite Hs. unfold ROUNDUP_int, ROUNDDOWN_int.
  rewrite (to_u32_small 1024) by lia.
  rewrite (to_u32_small d) by lia.
  rewrite !(to_u32_small (d + 1024 - 1)) by lia.
  set (a := d + 1024 - 1).
  assert (Ha : 0 <= a - a mod 1024 < 2 ^ 31).
  { pose proof (Z.mod_pos_bound a 1024). lia. }
  unfold to_s32. rewrite to_u32_small by lia.
  destruct (Z.ltb_spec (a - a mod 1024) (2 ^ 31)); [| lia].
  rewrite Z.quot_div_nonneg by lia.
  replace (d + 1023) with a by (unfold a; lia).
  pose proof (Z.div_mod a 1024).
  assert (a - a mod 1024 = (a / 1024) * 1024) as -> by lia.
  apply Z.div_mul. lia.
Qed.

(** C8.  For link symbols with [entry <= end] inside the 32-bit address
    space (and less than 2GB apart), the last line of [kerninfo] reports
    [end - entry] rounded up to a whole kilobyte, in KB: the least number
    of kilobytes that covers the difference.  The physical address printed
    for [entry] is [entry - KERNBASE].  For entry = 0xF0100000 and
    end = 0xF0120000 the footprint is 128 and the physical address of
    [entry] is 0x00100000. *)
Theorem kerninfo_footprint (K : Kernel) (argc : Z) (argv : list string) (m : memory) :
  0 <= sym_entry K <= sym_end K ->
  sym_end K < 2 ^ 32 ->
  sym_end K - sym_entry K <= 2 ^ 31 - 1024 ->
  let d := sym_end K - sym_entry K in
  let r := mon_kerninfo K argc argv m in
  result r = Returned 0 /\
  last (trace r) =
    Some (Cprintf "Kernel executable memory footprint: %dKB\n" [AInt (footprint_kb K)]) /\
  footprint_kb K = (d + 1023) / 1024 /\
  d <= 1024 * footprint_kb K < d + 1024 /\
  (KERNBASE <= sym_entry K ->
   trace r !! 2%nat =
     Some (Cprintf "  entry  %08x (virt)  %08x (phys)\n"
             [AInt (sym_entry K); AInt (sym_entry K - KERNBASE)])) /\
  (sym_entry K = 0xF0100000 -> sym_end K = 0xF0120000 ->
   footprint_kb K = 128 /\ to_u32 (sym_entry K - KERNBASE) = 0x00100000).
Proof.
  intros Horder Hend Hspan d r.
  assert (Hfp : footprint_kb K = (d + 1023) / 1024).
  { unfold footprint_kb. apply roundup_kilobyte. unfold d. lia. }
  split; [reflexivity |]. split; [reflexivity |]. split; [exact Hfp |].
  split.
  - rewrite Hfp. pose proof (Z.div_mod (d + 1023) 1024).
    pose proof (Z.mod_pos_bound (d + 1023) 1024). lia.
  - split.
    + intros Hbase. cbn [trace r mon_kerninfo lookup list_lookup].
      rewrite to_u32_small; [reflexivity |]. unfold KERNBASE in *. lia.
    + intros He Hn. split.
      * rewrite Hfp. unfold d. rewrite He, Hn. reflexivity.
      * rewrite He. reflexivity.
Qed.

Lemma kerninfo_footprint_witness :
  let r := mon_kerninfo demo_kernel 1 ["kerninfo"%string] demo_memory in
  last (trace r) =
    Some (Cprintf "Kernel executable memory footprint: %dKB\n" [AInt 128]) /\
  trace r !! 2%nat =
    Some (Cprintf "  entry  %08x (virt)  %08x (phys)\n"
            [AInt 0xF0100000; AInt 0x00100000]).
Proof.
  intros r.
  destruct (kerninfo_footprint demo_kernel 1 ["kerninfo"%string] demo_memory)
    as (_ & Hlast & _ & _ & Hphys & Hval).
  - cbn. lia.
  - cbn. lia.
  - cbn. lia.
  - destruct (Hval eq_refl eq_refl) as [H128 _].
    split.
    + fold r in Hlast. rewrite Hlast, H128. reflexivity.
    + apply Hphys. cbn. unfold KERNBASE. lia.
Defined.

(** ** backtrace *)

Lemma symbol_line_no_frame (K : Kernel) (m : memory) (fp : Z) :
  List.filter is_frame_line (symbol_line K m fp) = [].
Proof. unfold symbol_line. now destruct (debuginfo_eip K (word_at m fp 4)). Qed.

Lemma count_frame_events (K : Kernel) (m : memory) (fps : list Z) :
  count is_frame_line (flat_map (frame_events K m) fps) = length fps.
Proof.
  unfold count. induction fps as [| fp fps IH]; [reflexivity |].
  cbn [flat_map]. rewrite List.filter_app, length_app, IH.
  unfold frame_events. cbn [List.filter is_frame_line frame_line String.eqb].
  change (String.eqb _ _) with true. cbn iota.
  now rewrite symbol_line_no_frame.
Qed.

Lemma backtrace_loop_chain (K : Kernel) (m : memory) (fps : list Z) :
  forall (ebp : Z) (fuel : nat),
    fp_chain m ebp fps -> (length fps < fuel)%nat ->
    backtrace_loop K fuel m ebp = (Returned 0, flat_map (frame_events K m) fps).
Proof.
  induction fps as [| fp fps IH]; intros ebp fuel Hchain Hfuel.
  - cbn in Hchain. subst ebp. destruct fuel; [cbn in Hfuel; lia | reflexivity].
  - destruct Hchain as (-> & Hnz & Hrest).
    destruct fuel as [| fuel]; [cbn in Hfuel; lia |].
    cbn [backtrace_loop].
    destruct (Z.eqb_spec fp 0) as [H0 | _]; [contradiction |].
    rewrite (IH (m fp) fuel Hrest) by (cbn in Hfuel; lia).
    reflexivity.
Qed.

(** C4.  When the chain of saved frame pointers that starts at the
    current base pointer reaches a saved zero, [backtrace] prints the
    heading, then for each non-zero frame pointer of the chain, in order,
    one raw line (the frame pointer, the return address at fp + 4 and the
    five words above it) followed by the optional symbol line, stops at
    the zero and returns 0; the raw lines are as many as the non-zero
    frame pointers. *)
Theorem backtrace_chain (K : Kernel) (m : memory) (fps : list Z)
    (argc : Z) (argv : list string) (fuel : nat) :
  fp_chain m (read_ebp K) fps ->
  (length fps < fuel)%nat ->
  let r := mon_backtrace K fuel argc argv m in
  result r = Returned 0 /\
  trace r =
    Cprintf "Stack backtrace:\n" [] ::
    flat_map (fun fp =>
      Cprintf "  ebp %08x eip %08x args %08x %08x %08x %08x %08x\n"
        [ AInt fp; AInt (m (to_u32 (fp + 4))); AInt (m (to_u32 (fp + 8)));
          AInt (m (to_u32 (fp + 12))); AInt (m (to_u32 (fp + 16)));
          AInt (m (to_u32 (fp + 20))); AInt (m (to_u32 (fp + 24))) ]
      :: symbol_line K m fp) fps /\
  count is_frame_line (trace r) = length fps /\
  final r = m.
Proof.
  intros Hchain Hfuel r. subst r. unfold mon_backtrace.
  rewrite (backtrace_loop_chain K m fps _ fuel Hchain Hfuel).
  cbn [result trace final].
  repeat split.
  unfold count. cbn [List.filter is_frame_line].
  apply (count_frame_events K m fps).
Qed.

Lemma backtrace_chain_witness :
  let r := mon_backtrace demo_kernel 5 1 ["backtrace"%string] demo_memory in
  fp_chain demo_memory (read_ebp demo_kernel) [0xF010FF00; 0xF010FF40] /\
  result r = Returned 0 /\
  count is_frame_line (trace r) = 2%nat.
Proof.
  intros r.
  assert (Hc : fp_chain demo_memory (read_ebp demo_kernel) [0xF010FF00; 0xF010FF40]).
  { cbn. repeat split; discriminate. }
  split; [exact Hc |].
  destruct (backtrace_chain demo_kernel demo_memory [0xF010FF00; 0xF010FF40]
              1 ["backtrace"%string] 5 Hc) as (Hres & _ & Hcount & _).
  - cbn. lia.
  - split; [exact Hres | exact Hcount].
Defined.

(** ** showmappings *)

Lemma count_app (p : event -> bool) (t1 t2 : list event) :
  count p (t1 ++ t2) = (count p t1 + count p t2)%nat.
Proof. unfold count. now rewrite List.filter_app, length_app. Qed.

Lemma is_walk_print_entry (va e : Z) : is_walk (print_entry va e) = false.
Proof. unfold print_entry. now destruct (Z.land e PTE_P =? 0). Qed.

Lemma mon_showmapping_reversed (K : Kernel) (m : memory)
    (a0 a1 a2 : string) (fuel : nat) :
  to_u32 (strtol K a1 16) > to_u32 (strtol K a2 16) ->
  mon_showmapping K (S fuel) 3 [a0; a1; a2] m =
    mkRun (Returned 0) [Cprintf "Invalid address input.\n" []] m.
Proof.
  intros Hgt. unfold mon_showmapping.
  cbn [Z.eqb Pos.eqb negb argv_at List.nth showmapping_loop].
  set (b := to_u32 (strtol K a1 16)) in *.
  set (e := to_u32 (strtol K a2 16)) in *.
  destruct (Z.leb_spec b e) as [Hle | _]; [lia |].
  replace (b >? e) with true by (symmetry; apply Z.gtb_lt; lia).
  now rewrite !orb_true_r.
Qed.

(** C6.  When the parsed addresses satisfy [begin > end], [showmappings]
    prints the invalid-address line, does not enter the loop, so the
    accessor is never called, and returns 0. *)
Theorem showmappings_reversed_range (K : Kernel) (m : memory)
    (a0 a1 a2 : string) (fuel : nat) :
  to_u32 (strtol K a1 16) > to_u32 (strtol K a2 16) ->
  let r := mon_showmapping K (S fuel) 3 [a0; a1; a2] m in
  r = mkRun (Returned 0) [Cprintf "Invalid address input.\n" []] m /\
  count is_walk (trace r) = 0%nat.
Proof.
  intros Hgt r. subst r.
  rewrite (mon_showmapping_reversed K m a0 a1 a2 fuel Hgt).
  split; reflexivity.
Qed.

Lemma showmappings_reversed_range_witness :
  hex_strtol "0xA" 16 > hex_strtol "0x5" 16 /\
  mon_showmapping demo_kernel 1 3 ["showmappings"; "0xA"; "0x5"]%string demo_memory =
    mkRun (Returned 0) [Cprintf "Invalid address input.\n" []] demo_memory.
Proof.
  split; [reflexivity |].
  apply (showmappings_reversed_range demo_kernel demo_memory
           "showmappings" "0xA" "0x5" 0).
  reflexivity.
Defined.

Section Showmappings.

Variable K : Kernel.
Variable m : memory.

Lemma nth_addr_0 (begin : Z) : nth_addr begin 0 = begin.
Proof. unfold nth_addr. lia. Qed.

Lemma nth_addr_S (begin : Z) (j : nat) :
  nth_addr begin (S j) = nth_addr (begin + PGSIZE) j.
Proof. unfold nth_addr. lia. Qed.

Lemma nth_addr_mono (begin : Z) (j k : nat) :
  (j <= k)%nat -> nth_addr begin j <= nth_addr begin k.
Proof. unfold nth_addr, PGSIZE. nia. Qed.

Lemma rounds_S (begin : Z) (n : nat) :
  rounds K m begin (S n) = round_events K m begin ++ rounds K m (begin + PGSIZE) n.
Proof.
  unfold rounds. cbn [seq List.map flat_map]. rewrite nth_addr_0.
  f_equal. f_equal. rewrite <- seq_shift, List.map_map.
  apply List.map_ext. intros j. apply nth_addr_S.
Qed.

Lemma length_round_events (a : Z) : length (round_events K m a) = 2%nat.
Proof. unfold round_events. now destruct (pgdir_walk K a). Qed.

Lemma length_rounds (begin : Z) (n : nat) : length (rounds K m begin n) = (2 * n)%nat.
Proof.
  revert begin. induction n as [| n IH]; intros begin; [reflexivity |].
  rewrite rounds_S, length_app, length_round_events, IH. lia.
Qed.

Lemma count_walk_rounds (begin : Z) (n : nat) : count is_walk (rounds K m begin n) = n.
Proof.
  revert begin. induction n as [| n IH]; intros begin; [reflexivity |].
  rewrite rounds_S, count_app, IH. unfold round_events, count.
  destruct (pgdir_walk K begin); cbn [List.filter is_walk panic_walk];
    rewrite ?is_walk_print_entry; reflexivity.
Qed.

Lemma count_panic_rounds (begin : Z) (n : nat) :
  (forall j, (j < n)%nat -> is_Some (pgdir_walk K (nth_addr begin j))) ->
  count is_panic (rounds K m begin n) = 0%nat.
Proof.
  revert begin. induction n as [| n IH]; intros begin Hall; [reflexivity |].
  rewrite rounds_S, count_app, IH.
  - destruct (Hall 0%nat ltac:(lia)) as [entry He]. rewrite nth_addr_0 in He.
    unfold round_events, count. rewrite He. cbn [List.filter is_panic].
    now rewrite count_print_entry_panic.
  - intros j Hj. rewrite <- nth_addr_S. apply Hall. lia.
Qed.

(** As long as the addresses stay at or below [end_] and the accessor
    finds an entry, the loop goes round. *)
Lemma showmapping_loop_rounds (end_ : Z) (n : nat) :
  forall (begin : Z) (fuel : nat),
    0 <= begin < 2 ^ 32 -> end_ < 2 ^ 32 ->
    (forall j, (j < n)%nat ->
       nth_addr begin j <= end_ /\ is_Some (pgdir_walk K (nth_addr begin j))) ->
    showmapping_loop K (n + fuel) m begin end_ =
      (fst (showmapping_loop K fuel m (to_u32 (nth_addr begin n)) end_),
       rounds K m begin n ++
       snd (showmapping_loop K fuel m (to_u32 (nth_addr begin n)) end_)).
Proof.
  induction n as [| n IH]; intros begin fuel Hb He Hall.
  - rewrite nth_addr_0, to_u32_small by exact Hb.
    cbn [Nat.add rounds seq List.map flat_map app].
    now destruct (showmapping_loop K fuel m begin end_).
  - destruct (Hall 0%nat ltac:(lia)) as [Hle [entry Hw]].
    rewrite nth_addr_0 in Hle, Hw.
    cbn [Nat.add showmapping_loop].
    destruct (Z.leb_spec begin end_) as [_ | Hgt]; [| lia].
    rewrite Hw, rounds_S. unfold round_events at 1. rewrite Hw.
    destruct n as [| n'].
    + cbn [Nat.add rounds seq List.map flat_map app].
      rewrite nth_addr_S, nth_addr_0.
      now destruct (showmapping_loop K fuel m (to_u32 (begin + PGSIZE)) end_).
    + destruct (Hall 1%nat ltac:(lia)) as [Hle1 _].
      rewrite nth_addr_S, nth_addr_0 in Hle1.
      assert (Hb' : 0 <= begin + PGSIZE < 2 ^ 32) by (unfold PGSIZE in *; lia).
      rewrite (to_u32_small _ Hb').
      rewrite (IH (begin + PGSIZE) fuel Hb' He).
      * rewrite <- nth_addr_S. reflexivity.
      * intros j Hj. rewrite <- nth_addr_S. apply Hall. lia.
Qed.

Lemma mon_showmapping_ordered (a0 a1 a2 : string) (fuel : nat) :
  let begin := to_u32 (strtol K a1 16) in
  let end_ := to_u32 (strtol K a2 16) in
  begin <= end_ ->
  mon_showmapping K fuel 3 [a0; a1; a2] m =
    mkRun (fst (showmapping_loop K fuel m begin end_))
          (snd (showmapping_loop K fuel m begin end_)) m.
Proof.
  intros begin end_ Hle. unfold mon_showmapping.
  cbn [Z.eqb Pos.eqb negb argv_at List.nth]. fold begin end_.
  pose proof (to_u32_range (strtol K a1 16)) as Hb.
  pose proof (to_u32_range (strtol K a2 16)) as He.
  fold begin in Hb. fold end_ in He.
  replace (begin <? 0) with false by (symmetry; apply Z.ltb_ge; lia).
  replace (end_ <? 0) with false by (symmetry; apply Z.ltb_ge; lia).
  replace (begin >? end_) with false
    by (symmetry; rewrite Z.gtb_ltb; apply Z.ltb_ge; lia).
  cbn [orb app].
  now destruct (showmapping_loop K fuel m begin end_).
Qed.

(** The run up to and including the call of the accessor at the [k]-th
    address. *)
Lemma mon_showmapping_reaches (a0 a1 a2 : string) (k fuel : nat) :
  let begin := to_u32 (strtol K a1 16) in
  let end_ := to_u32 (strtol K a2 16) in
  let a := nth_addr begin k in
  a <= end_ ->
  (forall j, (j < k)%nat -> is_Some (pgdir_walk K (nth_addr begin j))) ->
  mon_showmapping K (k + S fuel) 3 [a0; a1; a2] m =
    match pgdir_walk K a with
    | None => mkRun Panicked (rounds K m begin k ++ [PgdirWalk a 0; panic_walk]) m
    | Some entry =>
        mkRun (fst (showmapping_loop K fuel m (to_u32 (a + PGSIZE)) end_))
              (rounds K m begin k ++
               PgdirWalk a 0 :: print_entry a (m entry) ::
               snd (showmapping_loop K fuel m (to_u32 (a + PGSIZE)) end_)) m
    end.
Proof.
  intros begin end_ a Ha Hall.
  pose proof (to_u32_range (strtol K a1 16)) as Hb.
  pose proof (to_u32_range (strtol K a2 16)) as He.
  fold begin in Hb. fold end_ in He.
  assert (Hbk : begin <= a) by (rewrite <- (nth_addr_0 begin); apply nth_addr_mono; lia).
  rewrite mon_showmapping_ordered by (fold begin end_; lia). fold begin end_.
  rewrite (showmapping_loop_rounds end_ k begin (S fuel)); try lia.
  - fold a. rewrite (to_u32_small a) by lia.
    cbn [showmapping_loop].
    destruct (Z.leb_spec a end_) as [_ | Hgt]; [| lia].
    destruct (pgdir_walk K a) as [entry |]; [| reflexivity].
    now destruct (showmapping_loop K fuel m (to_u32 (a + PGSIZE)) end_).
  - intros j Hj. split; [| apply Hall; exact Hj].
    transitivity a; [apply nth_addr_mono; lia | exact Ha].
Qed.

End Showmappings.

(** C2, as amended.  Let [a = begin + k * PGSIZE] be at most [end] (so
    [begin <= end]), and let the accessor have returned an entry for every
    earlier address of the walk.  Then the command calls the accessor at
    [a], with the create flag clear; and when the accessor returns an
    entry there, the next thing printed is, if the present bit of the
    entry is set, the line with [a], the frame address of the entry and
    its P, W and U bits, and otherwise the line saying that the entry of
    [a] does not exist. *)
Theorem showmappings_per_address (K : Kernel) (m : memory)
    (a0 a1 a2 : string) (k fuel : nat) :
  let begin := to_u32 (strtol K a1 16) in
  let end_ := to_u32 (strtol K a2 16) in
  let a := nth_addr begin k in
  a <= end_ ->
  (forall j, (j < k)%nat -> is_Some (pgdir_walk K (nth_addr begin j))) ->
  (k < fuel)%nat ->
  let t := trace (mon_showmapping K fuel 3 [a0; a1; a2] m) in
  t !! (2 * k)%nat = Some (PgdirWalk a 0) /\
  forall entry, pgdir_walk K a = Some entry ->
    (Z.land (m entry) PTE_P <> 0 ->
     t !! (2 * k + 1)%nat =
       Some (Cprintf "Virtual address: 0x%x, physical address: 0x%x\n  PTE_P: %d, PTE_W: %d, PTE_U: %d\n"
               [ AInt a; AInt (PTE_ADDR (m entry)); AInt 1;
                 AInt (flag (m entry) PTE_W); AInt (flag (m entry) PTE_U) ])) /\
    (Z.land (m entry) PTE_P = 0 ->
     t !! (2 * k + 1)%nat =
       Some (Cprintf "0x%x: page table entry doesn't exist.\n" [AInt a])).
Proof.
  intros begin end_ a Ha Hall Hfuel t.
  destruct fuel as [| f]; [lia |].
  assert (Hrun := mon_showmapping_reaches K m a0 a1 a2 k (f - k) Ha Hall).
  replace (k + S (f - k))%nat with (S f) in Hrun by lia.
  fold begin end_ a in Hrun.
  pose proof (length_rounds K m begin k) as Hlen.
  split.
  - subst t. rewrite Hrun.
    destruct (pgdir_walk K a); cbn [trace]; now apply list_lookup_middle.
  - intros entry Hw. subst t. rewrite Hrun, Hw. cbn [trace].
    rewrite (cons_middle (PgdirWalk a 0)), app_assoc.
    assert (Hlen' : length (rounds K m begin k ++ [PgdirWalk a 0]) = (2 * k + 1)%nat)
      by (rewrite length_app; cbn; lia).
    rewrite (list_lookup_middle _ _ _ _ (eq_sym Hlen')).
    unfold print_entry, flag. split; intros HP.
    + destruct (Z.eqb_spec (Z.land (m entry) PTE_P) 0); [contradiction | reflexivity].
    + now rewrite HP.
Qed.

Lemma showmappings_per_address_witness :
  let t := trace (mon_showmapping demo_kernel 5 3
                    ["showmappings"; "0x1000"; "0x3000"]%string demo_memory) in
  t !! 2%nat = Some (PgdirWalk 0x2000 0) /\
  t !! 3%nat =
    Some (Cprintf "Virtual address: 0x%x, physical address: 0x%x\n  PTE_P: %d, PTE_W: %d, PTE_U: %d\n"
            [AInt 0x2000; AInt 0x00155000; AInt 1; AInt 1; AInt 0]).
Proof.
  intros t.
  destruct (showmappings_per_address demo_kernel demo_memory
              "showmappings" "0x1000" "0x3000" 1 5) as [Hwalk Hline].
  - vm_compute. discriminate.
  - intros j _. eexists. reflexivity.
  - lia.
  - split; [exact Hwalk |].
    destruct (Hline 0xEFC00008 eq_refl) as [Hpresent _].
    apply Hpresent. discriminate.
Defined.

(** The claim C2 without the proviso fails: when the accessor finds no
    page table for [begin], [showmappings 0x0 0x1000] stops there and the
    address 0x1000, although at most [end], is never looked up. *)
Lemma showmappings_per_address_counterexample :
  let run fuel := mon_showmapping bare_kernel fuel 3
                    ["showmappings"; "0x0"; "0x1000"]%string demo_memory in
  to_u32 (strtol bare_kernel "0x0" 16) = 0 /\
  to_u32 (strtol bare_kernel "0x1000" 16) = 0x1000 /\
  nth_addr 0 1 = 0x1000 /\
  run 8%nat = mkRun Panicked [PgdirWalk 0 0; panic_walk] demo_memory /\
  ~ (exists fuel, In (PgdirWalk 0x1000 0) (trace (run fuel))).
Proof.
  intros run.
  do 4 (split; [reflexivity |]).
  intros [fuel Hin]. destruct fuel as [| fuel]; cbn in Hin.
  - exact Hin.
  - destruct Hin as [H | [H | H]]; [discriminate H | discriminate H | exact H].
Qed.

(** C7.  In the [showmappings] loop a missing entry handle is fatal, and
    nothing else is: (1) at the first address of the walk for which the
    accessor, called with the create flag clear, returns no handle, the
    monitor panics; the trace ends with that call and the panic message,
    with no line about that address and no later round; (2) whenever the
    command panics, the last thing it did was a call of the accessor that
    returned no handle, and nothing before it was a panic; (3) a round
    whose accessor call returns an entry, present or not, prints the line
    for that entry and goes on to the next address. *)
Theorem showmappings_panic (K : Kernel) (m : memory) (a0 a1 a2 : string) :
  let begin := to_u32 (strtol K a1 16) in
  let end_ := to_u32 (strtol K a2 16) in
  let run fuel := mon_showmapping K fuel 3 [a0; a1; a2] m in
  (forall (k fuel : nat),
     nth_addr begin k <= end_ ->
     (forall j, (j < k)%nat -> is_Some (pgdir_walk K (nth_addr begin j))) ->
     pgdir_walk K (nth_addr begin k) = None ->
     (k < fuel)%nat ->
     result (run fuel) = Panicked /\
     trace (run fuel) =
       rounds K m begin k ++
       [PgdirWalk (nth_addr begin k) 0; PanicMsg "pgdir_walk out of memory.\n"] /\
     count is_panic (rounds K m begin k) = 0%nat) /\
  (forall fuel,
     result (run fuel) = Panicked ->
     exists a t,
       pgdir_walk K a = None /\
       trace (run fuel) = t ++ [PgdirWalk a 0; PanicMsg "pgdir_walk out of memory.\n"] /\
       count is_panic t = 0%nat) /\
  (forall (fuel : nat) (b entry : Z),
     b <= end_ -> pgdir_walk K b = Some entry ->
     showmapping_loop K (S fuel) m b end_ =
       (fst (showmapping_loop K fuel m (to_u32 (b + PGSIZE)) end_),
        PgdirWalk b 0 :: print_entry b (m entry) ::
        snd (showmapping_loop K fuel m (to_u32 (b + PGSIZE)) end_))).
Proof.
  intros begin end_ run.
  assert (Hloop : forall fuel b,
            fst (showmapping_loop K fuel m b end_) = Panicked ->
            exists a t,
              pgdir_walk K a = None /\
              snd (showmapping_loop K fuel m b end_) = t ++ [PgdirWalk a 0; panic_walk] /\
              count is_panic t = 0%nat).
  { induction fuel as [| fuel IH]; intros b Hp; [discriminate Hp |].
    cbn [showmapping_loop] in *.
    destruct (b <=? end_); [| discriminate Hp].
    destruct (pgdir_walk K b) as [entry |] eqn:Hw.
    - destruct (showmapping_loop K fuel m (to_u32 (b + PGSIZE)) end_) as [r t] eqn:Hrest.
      cbn [fst snd] in *.
      destruct (IH (to_u32 (b + PGSIZE))) as (a & t' & Ha & Ht & Hc).
      { now rewrite Hrest. }
      rewrite Hrest in Ht. cbn [snd] in Ht. subst t.
      exists a, (PgdirWalk b 0 :: print_entry b (m entry) :: t').
      repeat split; [exact Ha |].
      unfold count in *. cbn [List.filter is_panic].
      now rewrite count_print_entry_panic.
    - exists b, []. repeat split. exact Hw. }
  split; [| split].
  - intros k fuel Ha Hall Hnone Hfuel.
    destruct fuel as [| f]; [lia |].
    assert (Hrun := mon_showmapping_reaches K m a0 a1 a2 k (f - k) Ha Hall).
    replace (k + S (f - k))%nat with (S f) in Hrun by lia.
    fold begin end_ in Hrun. rewrite Hnone in Hrun.
    unfold run. rewrite Hrun. cbn [result trace].
    repeat split. now apply count_panic_rounds.
  - intros fuel Hp. unfold run in *.
    destruct (Z.le_gt_cases begin end_) as [Hle | Hgt].
    + rewrite mon_showmapping_ordered in * by exact Hle.
      cbn [result trace] in *. now apply Hloop.
    + destruct fuel as [| fuel]; [discriminate Hp |].
      rewrite (mon_showmapping_reversed K m a0 a1 a2 fuel) in Hp
        by (fold begin end_; lia).
      discriminate Hp.
  - intros fuel b entry Hb Hw. cbn [showmapping_loop].
    destruct (Z.leb_spec b end_) as [_ | Hgt]; [| lia].
    rewrite Hw.
    now destruct (showmapping_loop K fuel m (to_u32 (b + PGSIZE)) end_).
Qed.

Lemma showmappings_panic_witness :
  let run fuel := mon_showmapping bare_kernel fuel 3
                    ["showmappings"; "0x0"; "0x1000"]%string demo_memory in
  result (run 8%nat) = Panicked /\
  trace (run 8%nat) = [PgdirWalk 0 0; PanicMsg "pgdir_walk out of memory.\n"].
Proof.
  intros run.
  destruct (showmappings_panic bare_kernel demo_memory
              "showmappings" "0x0" "0x1000") as (Hfirst & _ & _).
  destruct (Hfirst 0%nat 8%nat) as (Hres & Htrace & _).
  - vm_compute. discriminate.
  - intros j Hj. lia.
  - reflexivity.
  - lia.
  - split; [exact Hres | exact Htrace].
Defined.

Section Termination.

Variable K : Kernel.
Variable m : memory.

(** Once an address of the residue class of [begin] lies in the last
    page of the address space and is at most [end_], every address of the
    class is at most [end_], the increment keeps the class, and the loop
    uses up any amount of fuel. *)
Lemma showmapping_loop_spins (begin end_ top : Z) :
  top <= end_ -> 2 ^ 32 - PGSIZE <= top ->
  top mod PGSIZE = begin mod PGSIZE ->
  (forall a, 0 <= a < 2 ^ 32 -> a mod PGSIZE = begin mod PGSIZE ->
             is_Some (pgdir_walk K a)) ->
  forall (fuel : nat) (b : Z),
    0 <= b < 2 ^ 32 -> b mod PGSIZE = begin mod PGSIZE ->
    fst (showmapping_loop K fuel m b end_) = OutOfFuel.
Proof.
  intros Htop Hhigh Hclass Hall.
  induction fuel as [| fuel IH]; intros b Hb Hbc; [reflexivity |].
  cbn [showmapping_loop].
  assert (Hle : b <= end_).
  { unfold PGSIZE in *. Z.div_mod_to_equations. lia. }
  destruct (Z.leb_spec b end_) as [_ | Hgt]; [| lia].
  destruct (Hall b Hb Hbc) as [entry Hw]. rewrite Hw.
  assert (Hnext : fst (showmapping_loop K fuel m (to_u32 (b + PGSIZE)) end_) = OutOfFuel).
  { apply IH; [apply to_u32_range |].
    unfold to_u32, PGSIZE in *. Z.div_mod_to_equations. lia. }
  now destruct (showmapping_loop K fuel m (to_u32 (b + PGSIZE)) end_).
Qed.

Lemma nth_addr_class (begin : Z) (k : nat) :
  nth_addr begin k mod PGSIZE = begin mod PGSIZE.
Proof. unfold nth_addr. apply Z_mod_plus_full. Qed.

Lemma last_round (begin end_ : Z) :
  begin <= end_ ->
  let n := Z.to_nat ((end_ - begin) / PGSIZE) in
  nth_addr begin n <= end_ < nth_addr begin (S n).
Proof.
  intros Hle n. unfold nth_addr, n, PGSIZE.
  rewrite Nat2Z.inj_succ, Z2Nat.id by (apply Z.div_pos; lia).
  Z.div_mod_to_equations. lia.
Qed.

End Termination.

(** C10, as amended.  Let [begin <= end], let [n] be the number of whole
    pages between them, so that [begin + n * PGSIZE] is the last address
    of the walk that is at most [end], and let the accessor return an
    entry at every address the loop reaches.  (1) If every address
    [begin + k * PGSIZE] that is at most [end] is below [2^32 - PGSIZE],
    the loop makes exactly [n + 1] rounds and the command returns 0.
    (2) If some such address is at or above [2^32 - PGSIZE], the increment
    of the last address wraps to a value that is still at most [end], and
    the command does not finish with any amount of fuel. *)
Theorem showmappings_termination (K : Kernel) (m : memory) (a0 a1 a2 : string) :
  let begin := to_u32 (strtol K a1 16) in
  let end_ := to_u32 (strtol K a2 16) in
  let run fuel := mon_showmapping K fuel 3 [a0; a1; a2] m in
  begin <= end_ ->
  let n := Z.to_nat ((end_ - begin) / PGSIZE) in
  ((forall k, nth_addr begin k <= end_ -> nth_addr begin k < 2 ^ 32 - PGSIZE) ->
   (forall k, nth_addr begin k <= end_ -> is_Some (pgdir_walk K (nth_addr begin k))) ->
   forall fuel, (S n < fuel)%nat ->
     result (run fuel) = Returned 0 /\
     count is_walk (trace (run fuel)) = S n) /\
  ((exists k, nth_addr begin k <= end_ /\ 2 ^ 32 - PGSIZE <= nth_addr begin k) ->
   to_u32 (nth_addr begin n + PGSIZE) = nth_addr begin n + PGSIZE - 2 ^ 32 /\
   to_u32 (nth_addr begin n + PGSIZE) <= end_ /\
   ((forall a, 0 <= a < 2 ^ 32 -> a mod PGSIZE = begin mod PGSIZE ->
               is_Some (pgdir_walk K a)) ->
    forall fuel, result (run fuel) = OutOfFuel)).
Proof.
  intros begin end_ run Hle n.
  pose proof (to_u32_range (strtol K a1 16)) as Hb.
  pose proof (to_u32_range (strtol K a2 16)) as He.
  fold begin in Hb. fold end_ in He.
  pose proof (last_round begin end_ Hle) as Hlast. cbv zeta in Hlast. fold n in Hlast.
  split.
  - intros Hlow Hall fuel Hfuel. unfold run.
    rewrite mon_showmapping_ordered by exact Hle. fold begin end_.
    cbn [result trace].
    replace fuel with (S n + (fuel - S n))%nat by lia.
    rewrite (showmapping_loop_rounds K m end_ (S n) begin); try lia.
    + pose proof (Hlow n ltac:(lia)) as Hn.
      assert (Hnext : 0 <= nth_addr begin (S n) < 2 ^ 32).
      { rewrite nth_addr_S. unfold nth_addr, PGSIZE in *. lia. }
      rewrite (to_u32_small _ Hnext).
      destruct (fuel - S n)%nat as [| f] eqn:Hf; [lia |].
      cbn [showmapping_loop].
      destruct (Z.leb_spec (nth_addr begin (S n)) end_) as [Hbad | _]; [lia |].
      cbn [fst snd]. rewrite app_nil_r.
      split; [reflexivity | apply count_walk_rounds].
    + intros j Hj.
      assert (Hjn : nth_addr begin j <= end_).
      { transitivity (nth_addr begin n); [apply nth_addr_mono; lia | lia]. }
      split; [exact Hjn | now apply Hall].
  - intros (k & Hk & Hhigh).
    assert (Hkn : nth_addr begin k <= nth_addr begin n).
    { apply nth_addr_mono. unfold nth_addr, PGSIZE in *. nia. }
    assert (Hwrap : to_u32 (nth_addr begin n + PGSIZE) = nth_addr begin n + PGSIZE - 2 ^ 32).
    { unfold to_u32, PGSIZE in *. Z.div_mod_to_equations. lia. }
    split; [exact Hwrap |]. split.
    + rewrite Hwrap. unfold PGSIZE in *. lia.
    + intros Hall fuel. unfold run.
      rewrite mon_showmapping_ordered by exact Hle. fold begin end_.
      cbn [result].
      apply (showmapping_loop_spins K m begin end_ (nth_addr begin k));
        try assumption.
      apply nth_addr_class. reflexivity.
Qed.

Lemma showmappings_termination_witness :
  (let run fuel := mon_showmapping demo_kernel fuel 3
                     ["showmappings"; "0x1000"; "0x3000"]%string demo_memory in
   result (run 5%nat) = Returned 0 /\ count is_walk (trace (run 5%nat)) = 3%nat) /\
  (let run fuel := mon_showmapping demo_kernel fuel 3
                     ["showmappings"; "0xFFFFE000"; "0xFFFFFFFF"]%string demo_memory in
   to_u32 (0xFFFFF000 + PGSIZE) = 0 /\
   forall fuel, result (run fuel) = OutOfFuel).
Proof.
  split.
  - intros run.
    destruct (showmappings_termination demo_kernel demo_memory
                "showmappings" "0x1000" "0x3000") as [Hfinite _].
    + vm_compute. discriminate.
    + change (to_u32 (strtol demo_kernel "0x1000" 16)) with 0x1000 in Hfinite.
      change (to_u32 (strtol demo_kernel "0x3000" 16)) with 0x3000 in Hfinite.
      apply Hfinite; [| intros k _; eexists; reflexivity | vm_compute; lia].
      intros k. unfold nth_addr, PGSIZE. lia.
  - intros run.
    destruct (showmappings_termination demo_kernel demo_memory
                "showmappings" "0xFFFFE000" "0xFFFFFFFF") as [_ Hwrap].
    + vm_compute. discriminate.
    + change (to_u32 (strtol demo_kernel "0xFFFFE000" 16)) with 0xFFFFE000 in Hwrap.
      change (to_u32 (strtol demo_kernel "0xFFFFFFFF" 16)) with 0xFFFFFFFF in Hwrap.
      destruct Hwrap as (_ & _ & Hspin).
      * exists 1%nat. unfold nth_addr, PGSIZE. lia.
      * split; [reflexivity |].
        apply Hspin. intros a _ _. eexists. reflexivity.
Defined.

(** The claim C10 without the proviso fails: for [showmappings 0x0 0x1000]
    no address of the walk is near the top of the address space and the
    claimed number of rounds is 2, but when the accessor finds no page
    table for [begin] the command panics in its first round; it never
    returns and never makes a second call of the accessor. *)
Lemma showmappings_termination_counterexample :
  let run fuel := mon_showmapping bare_kernel fuel 3
                    ["showmappings"; "0x0"; "0x1000"]%string demo_memory in
  to_u32 (strtol bare_kernel "0x0" 16) = 0 /\
  to_u32 (strtol bare_kernel "0x1000" 16) = 0x1000 /\
  (forall k, nth_addr 0 k <= 0x1000 -> nth_addr 0 k < 2 ^ 32 - PGSIZE) /\
  S (Z.to_nat ((0x1000 - 0) / PGSIZE)) = 2%nat /\
  run 8%nat = mkRun Panicked [PgdirWalk 0 0; panic_walk] demo_memory /\
  ~ (exists fuel, result (run fuel) = Returned 0) /\
  ~ (exists fuel, count is_walk (trace (run fuel)) = 2%nat).
Proof.
  intros run.
  do 2 (split; [reflexivity |]).
  split; [intros k; unfold nth_addr, PGSIZE; lia |].
  do 2 (split; [reflexivity |]).
  split; intros [fuel H]; destruct fuel; discriminate H.
Qed.

(** ** The tokenizer of [runcmd] *)

Section Tokenizer.

Local Open Scope nat_scope.

Lemma strchr_WHITESPACE (c : ascii) : strchr WHITESPACE c = is_space c.
Proof.
  unfold strchr, WHITESPACE, is_space. cbn [existsb].
  destruct (Ascii.eqb c " "), (Ascii.eqb c "009"), (Ascii.eqb c "013"),
    (Ascii.eqb c "010"); reflexivity.
Qed.

Lemma not_NUL (c : ascii) : c <> NUL -> Ascii.eqb c NUL = false.
Proof. intros H. now apply Ascii.eqb_neq. Qed.

Lemma gobble_spec (line : list ascii) :
  forall pre rest,
    Forall (fun c => c <> NUL) line ->
    exists ws r,
      line = ws ++ r /\
      Forall (fun c => is_space c = true) ws /\
      starts_word r /\
      gobble pre (line ++ NUL :: rest) = Some (pre ++ List.map blank ws, r ++ NUL :: rest).
Proof.
  induction line as [| c line IH]; intros pre rest Hnn.
  - exists [], []. cbn. rewrite app_nil_r. repeat split. constructor.
  - apply Forall_cons in Hnn as [Hc Hnn].
    cbn [app gobble]. rewrite (not_NUL c Hc), strchr_WHITESPACE. cbn [negb andb].
    destruct (is_space c) eqn:Hsp.
    + destruct (IH (pre ++ [NUL]) rest Hnn) as (ws & r & -> & Hws & Hr & Hg).
      exists (c :: ws), r. repeat split; try assumption.
      * now constructor.
      * rewrite Hg. cbn [List.map]. unfold blank at 2. rewrite Hsp.
        now rewrite <- app_assoc.
    + exists [], (c :: line). cbn. rewrite app_nil_r. repeat split; [constructor | exact Hsp].
Qed.

Lemma scan_arg_spec (line : list ascii) :
  forall pre rest,
    Forall (fun c => c <> NUL) line ->
    exists tok r,
      line = tok ++ r /\
      Forall (fun c => is_space c = false) tok /\
      starts_gap r /\
      scan_arg pre (line ++ NUL :: rest) = Some (pre ++ tok, r ++ NUL :: rest).
Proof.
  induction line as [| c line IH]; intros pre rest Hnn.
  - exists [], []. cbn. rewrite app_nil_r. repeat split. constructor.
  - apply Forall_cons in Hnn as [Hc Hnn].
    cbn [app scan_arg]. rewrite (not_NUL c Hc), strchr_WHITESPACE. cbn [negb andb].
    destruct (is_space c) eqn:Hsp; cbn [negb].
    + exists [], (c :: line). cbn. rewrite app_nil_r. repeat split; [constructor | exact Hsp].
    + destruct (IH (pre ++ [c]) rest Hnn) as (tok & r & -> & Htok & Hr & Hs).
      exists (c :: tok), r. repeat split; try assumption.
      * now constructor.
      * rewrite Hs. now rewrite <- app_assoc.
Qed.

Lemma tokens_gap (ws l : list ascii) :
  Forall (fun c => is_space c = true) ws -> tokens (ws ++ l) = tokens l.
Proof.
  induction 1 as [| c ws Hc _ IH]; [reflexivity |].
  cbn [app tokens]. now rewrite Hc.
Qed.

Lemma tokens_word (tok r : list ascii) :
  tok <> [] ->
  Forall (fun c => is_space c = false) tok ->
  starts_gap r ->
  tokens (tok ++ r) = tok :: tokens r.
Proof.
  intros Hne Htok Hr. induction Htok as [| c tok Hc Htok IH]; [contradiction |].
  cbn [app tokens]. rewrite Hc.
  destruct tok as [| c' tok'].
  - cbn [app]. destruct r as [| c2 r']; [reflexivity |].
    cbn in Hr. now rewrite Hr.
  - cbn [app]. apply Forall_cons in Htok as [Hc' Htok']. rewrite Hc'.
    change (c' :: tok' ++ r) with ((c' :: tok') ++ r).
    rewrite IH by discriminate. reflexivity.
Qed.

Lemma map_blank_word (tok : list ascii) :
  Forall (fun c => is_space c = false) tok -> List.map blank tok = tok.
Proof.
  induction 1 as [| c tok Hc _ IH]; [reflexivity |].
  cbn [List.map]. unfold blank at 1. now rewrite Hc, IH.
Qed.

Lemma blank_gap_head (r junk : list ascii) :
  starts_gap r -> exists tail, List.map blank r ++ NUL :: junk = NUL :: tail.
Proof.
  destruct r as [| c r]; intros Hr.
  - now exists junk.
  - cbn in Hr. cbn [List.map app]. unfold blank at 1. rewrite Hr. eauto.
Qed.

Lemma cstring_token (tok tail : list ascii) :
  Forall (fun c => c <> NUL) tok ->
  cstring (tok ++ NUL :: tail) = string_of_list_ascii tok.
Proof.
  induction 1 as [| c tok Hc _ IH]; [reflexivity |].
  cbn [app cstring string_of_list_ascii]. now rewrite (not_NUL c Hc), IH.
Qed.

Lemma gobble_stops (suf : list ascii) :
  forall pre pre1 suf1,
    gobble pre suf = Some (pre1, suf1) ->
    length suf1 <= length suf /\
    match suf1 with
    | [] => False
    | c :: _ => Ascii.eqb c NUL = true \/ strchr WHITESPACE c = false
    end.
Proof.
  induction suf as [| c suf IH]; intros pre pre1 suf1 Hg; [discriminate Hg |].
  cbn [gobble] in Hg.
  destruct (Ascii.eqb c NUL) eqn:Hc, (strchr WHITESPACE c) eqn:Hw; cbn [negb andb] in Hg;
    try (injection Hg as <- <-; split; [lia | auto]).
  destruct (IH _ _ _ Hg) as [Hlen Hhead]. split; [cbn [length]; lia | exact Hhead].
Qed.

Lemma scan_arg_shrinks (suf : list ascii) :
  forall pre pre2 suf2,
    scan_arg pre suf = Some (pre2, suf2) -> length suf2 <= length suf.
Proof.
  induction suf as [| c suf IH]; intros pre pre2 suf2 Hs; [discriminate Hs |].
  cbn [scan_arg] in Hs.
  destruct (negb (Ascii.eqb c NUL) && negb (strchr WHITESPACE c)).
  - apply IH in Hs. cbn [length]. lia.
  - injection Hs as <- <-. lia.
Qed.

(** The parsing loop never needs more rounds than the buffer has bytes
    left, whatever the buffer holds. *)
Lemma parse_args_finishes (fuel : nat) :
  forall argc argv pre suf,
    length suf < fuel -> parse_args fuel argc argv pre suf <> Unfinished.
Proof.
  induction fuel as [| fuel IH]; intros argc argv pre suf Hfuel; [lia |].
  cbn [parse_args].
  destruct (gobble pre suf) as [[pre1 suf1] |] eqn:Hg; [| discriminate].
  destruct (gobble_stops _ _ _ _ Hg) as [Hlen Hhead].
  destruct suf1 as [| c suf1']; [discriminate |].
  destruct (Ascii.eqb c NUL) eqn:Hc; [discriminate |].
  destruct (Nat.eqb argc (MAXARGS - 1)); [discriminate |].
  destruct Hhead as [Hbad | Hw]; [congruence |].
  cbn [scan_arg]. rewrite Hc, Hw. cbn [negb andb].
  destruct (scan_arg (pre1 ++ [c]) suf1') as [[pre2 suf2] |] eqn:Hs; [| discriminate].
  apply scan_arg_shrinks in Hs. apply IH. cbn [length] in Hlen. lia.
Qed.

Lemma tokenize_finishes (argv0 : list (option nat)) (buf : list ascii) :
  tokenize argv0 buf <> Unfinished.
Proof.
  unfold tokenize.
  pose proof (parse_args_finishes (S (length buf)) 0 (<[0 := None]> argv0) [] buf
                ltac:(lia)) as Hfin.
  destruct (parse_args _ _ _ _ _); congruence.
Qed.

Lemma parse_args_spec (fuel : nat) :
  forall (line : list ascii),
    length line < fuel ->
    Forall (fun c => c <> NUL) line ->
    forall (argc : nat) (argv : list (option nat)) (pre junk : list ascii),
      argc < MAXARGS ->
      length argv = MAXARGS ->
      let toks := tokens line in
      let buf' := pre ++ List.map blank line ++ NUL :: junk in
      (argc + length toks < MAXARGS ->
       exists argv',
         parse_args fuel argc argv pre (line ++ NUL :: junk) =
           Args (argc + length toks) argv' buf' /\
         length argv' = MAXARGS /\
         (forall i, i < argc -> argv' !! i = argv !! i) /\
         (forall i tok, toks !! i = Some tok ->
            exists off, argv' !! (argc + i) = Some (Some off) /\ token_at buf' off tok)) /\
      (MAXARGS <= argc + length toks ->
       exists b, parse_args fuel argc argv pre (line ++ NUL :: junk) = TooMany b).
Proof.
  induction fuel as [| fuel IH]; intros line Hfuel Hnn argc argv pre junk Hargc Hlen toks buf';
    [lia |].
  cbn [parse_args].
  destruct (gobble_spec line pre junk Hnn) as (ws & r & Hline & Hws & Hr & Hg).
  rewrite Hg.
  assert (Htoks : toks = tokens r) by (unfold toks; rewrite Hline; now apply tokens_gap).
  destruct r as [| c r'].
  - (* only whitespace is left *)
    rewrite app_nil_r in Hline. subst ws.
    cbn [app]. change (Ascii.eqb NUL NUL) with true. cbn iota.
    rewrite Htoks. cbn [tokens length]. rewrite Nat.add_0_r. split; [| lia].
    intros _. exists argv. repeat split; try assumption.
    + unfold buf'. now rewrite <- app_assoc.
    + intros i tok Hi. discriminate Hi.
  - (* an argument starts at [c] *)
    assert (Hnn' : Forall (fun c => c <> NUL) (c :: r')).
    { rewrite Hline in Hnn. now apply Forall_app in Hnn as [_ Hnn]. }
    pose proof (Forall_inv Hnn') as Hc.
    cbn [app]. rewrite (not_NUL c Hc).
    set (pre1 := pre ++ List.map blank ws).
    destruct (scan_arg_spec (c :: r') pre1 junk Hnn')
      as (tok & r2 & Hword & Htok & Hr2 & Hs).
    assert (Htne : tok <> []).
    { intros ->. cbn [app] in Hword. subst r2. cbn in Hr2, Hr. congruence. }
    assert (Htoks' : toks = tok :: tokens r2).
    { rewrite Htoks, Hword. now apply tokens_word. }
    assert (Hbuf : buf' = (pre1 ++ tok) ++ List.map blank r2 ++ NUL :: junk).
    { unfold buf', pre1. rewrite Hline, Hword, !List.map_app, (map_blank_word tok Htok).
      now rewrite <- !app_assoc. }
    rewrite Htoks'. cbn [length].
    destruct (Nat.eqb_spec argc (MAXARGS - 1)) as [Hfull | Hroom].
    + split; [unfold MAXARGS in *; lia | eauto].
    + change (c :: r' ++ NUL :: junk) with ((c :: r') ++ NUL :: junk).
      rewrite Hs.
      set (argv1 := <[argc := Some (length pre1)]> argv).
      assert (Hlen1 : length argv1 = MAXARGS) by (unfold argv1; now rewrite length_insert).
      assert (Hshort : length r2 < fuel).
      { rewrite Hline, Hword, !length_app in Hfuel.
        destruct tok; [contradiction | cbn [length] in Hfuel; lia]. }
      assert (Hnn2 : Forall (fun c => c <> NUL) r2).
      { rewrite Hword in Hnn'. now apply Forall_app in Hnn' as [_ Hnn']. }
      assert (Hnt : Forall (fun c => c <> NUL) tok).
      { rewrite Hword in Hnn'. now apply Forall_app in Hnn' as [Hnn' _]. }
      destruct (IH r2 Hshort Hnn2 (S argc) argv1 (pre1 ++ tok) junk
                  ltac:(unfold MAXARGS in *; lia) Hlen1) as [IHfit IHover].
      cbv zeta in IHfit. rewrite <- Hbuf in IHfit.
      rewrite Nat.add_succ_r. split.
      * intros Hfit. destruct (IHfit Hfit) as (argv' & Hp & Hl' & Hkeep & Hargs).
        exists argv'. repeat split; try assumption.
        -- intros i Hi. rewrite Hkeep by lia.
           unfold argv1. apply list_lookup_insert_ne. lia.
        -- intros [| i] tk Hi.
           ++ cbn in Hi. injection Hi as <-.
              exists (length pre1). rewrite Nat.add_0_r, Hkeep by lia.
              split.
              ** unfold argv1. apply list_lookup_insert_eq.
                 rewrite Hlen. exact Hargc.
              ** split; [exact Hnt |].
                 destruct (blank_gap_head r2 junk Hr2) as [tail Htail].
                 exists tail. rewrite Hbuf, <- app_assoc, drop_app_length.
                 now rewrite Htail.
           ++ cbn in Hi. rewrite Nat.add_succ_r. now apply Hargs.
      * exact IHover.
Qed.

End Tokenizer.

Section Dispatch.

Local Open Scope nat_scope.

Variable line junk : list ascii.
Variable argv0 : list (option nat).
Hypothesis line_no_NUL : Forall (fun c => c <> NUL) line.
Hypothesis argv0_slots : length argv0 = MAXARGS.

(** Lines 196 to 214 on a null-terminated line with at most fifteen
    tokens. *)
Lemma tokenize_fits :
  length (tokens line) < MAXARGS ->
  exists argv,
    tokenize argv0 (line ++ NUL :: junk) =
      Args (length (tokens line)) argv (List.map blank line ++ NUL :: junk) /\
    length argv = MAXARGS /\
    (forall i tok, tokens line !! i = Some tok ->
       exists off,
         argv !! i = Some (Some off) /\
         token_at (List.map blank line ++ NUL :: junk) off tok) /\
    argv !! length (tokens line) = Some None.
Proof.
  intros Hfit. unfold tokenize.
  destruct (parse_args_spec (S (length (line ++ NUL :: junk))) line
              ltac:(rewrite length_app; cbn; lia) line_no_NUL
              0 (<[0 := None]> argv0) [] junk
              ltac:(unfold MAXARGS; lia)
              ltac:(now rewrite length_insert)) as [Hspec _].
  destruct (Hspec Hfit) as (argv & Hp & Hl & _ & Hargs).
  cbn [Nat.add app] in Hp, Hargs. rewrite Hp.
  exists (<[length (tokens line) := None]> argv).
  split; [reflexivity |]. split; [now rewrite length_insert |]. split.
  - intros i tok Hi. destruct (Hargs i tok Hi) as (off & Hoff & Htok).
    exists off. split; [| exact Htok].
    rewrite list_lookup_insert_ne; [exact Hoff |].
    apply lookup_lt_Some in Hi. lia.
  - apply list_lookup_insert_eq. rewrite Hl. exact Hfit.
Qed.

Lemma tokenize_overflows :
  MAXARGS <= length (tokens line) ->
  exists b, tokenize argv0 (line ++ NUL :: junk) = TooMany b.
Proof.
  intros Hover. unfold tokenize.
  destruct (parse_args_spec (S (length (line ++ NUL :: junk))) line
              ltac:(rewrite length_app; cbn; lia) line_no_NUL
              0 (<[0 := None]> argv0) [] junk
              ltac:(unfold MAXARGS; lia)
              ltac:(now rewrite length_insert)) as [_ Hspec].
  destruct (Hspec Hover) as [b ->]. eauto.
Qed.

(** The lookup is made with the first token of the line. *)
Lemma select_first_token (tok0 : list ascii) (rest : list (list ascii)) :
  tokens line = tok0 :: rest ->
  length rest < MAXARGS - 1 ->
  exists args,
    argv_at args 0 = string_of_list_ascii tok0 /\
    select argv0 (line ++ NUL :: junk) =
      match lookup_command commands (string_of_list_ascii tok0) with
      | Some c => Invoke (func c) (Z.of_nat (S (length rest))) args
      | None => Drop [Cprintf "Unknown command '%s'\n" [AStr (string_of_list_ascii tok0)]]
      end.
Proof.
  intros Htoks Hrest.
  destruct tokenize_fits as (argv & Hp & _ & Hargs & _).
  { rewrite Htoks. cbn [length]. unfold MAXARGS in *. lia. }
  destruct (Hargs 0 tok0) as (off & Hoff & Hnn & tail & Htail).
  { now rewrite Htoks. }
  unfold select. rewrite Hp, Htoks. cbn [length Nat.eqb].
  destruct argv as [| slot argv']; [discriminate Hoff |].
  cbn in Hoff. injection Hoff as ->.
  cbn [take List.map argv_at List.nth string_at].
  assert (Hstr : cstring (drop off (List.map blank line ++ NUL :: junk)) =
                 string_of_list_ascii tok0)
    by (rewrite Htail; now apply cstring_token).
  rewrite !Hstr.
  eexists. split; [| reflexivity]. reflexivity.
Qed.

End Dispatch.

(** C3.  Let the buffer hold a line without terminator bytes, then a
    terminator, then anything, and let the line split at whitespace
    (space, tab, carriage return, line feed) into [k] tokens.  If
    [k <= 15], the tokenizer leaves [argc = k]; [argv[i]], for [i < k],
    points to the [i]-th token, which sits in the buffer followed by a
    terminator; [argv[k]] is null; the buffer is the line with its
    whitespace overwritten by terminators; and when [k = 0] no handler is
    called and [runcmd] returns 0 without output.  If [k >= 16], [runcmd]
    prints the too-many-arguments line, calls no handler and returns 0. *)
Theorem tokenizer_contract (line junk : list ascii) (argv0 : list (option nat)) :
  Forall (fun c => c <> NUL) line ->
  length argv0 = MAXARGS ->
  let buf := line ++ NUL :: junk in
  let buf' := List.map blank line ++ NUL :: junk in
  let toks := tokens line in
  ((length toks <= 15)%nat ->
   exists argv,
     tokenize argv0 buf = Args (length toks) argv buf' /\
     (forall i tok, toks !! i = Some tok ->
        exists off,
          argv !! i = Some (Some off) /\
          token_at buf' off tok /\
          string_at buf' (Some off) = string_of_list_ascii tok) /\
     argv !! length toks = Some None /\
     (toks = [] ->
      select argv0 buf = Drop [] /\
      forall K fuel m, runcmd K fuel argv0 buf m = mkRun (Returned 0) [] m)) /\
  ((16 <= length toks)%nat ->
   select argv0 buf =
     Drop [Cprintf "Too many arguments (max %d)\n" [AInt 16]] /\
   forall K fuel m,
     runcmd K fuel argv0 buf m =
       mkRun (Returned 0) [Cprintf "Too many arguments (max %d)\n" [AInt 16]] m).
Proof.
  intros Hnn Hlen buf buf' toks. split.
  - intros Hfit.
    destruct (tokenize_fits line junk argv0 Hnn Hlen) as (argv & Hp & _ & Hargs & Hnull).
    { fold toks. unfold MAXARGS. lia. }
    fold toks buf buf' in Hp, Hargs, Hnull.
    exists argv. split; [exact Hp |]. split; [| split; [exact Hnull |]].
    + intros i tok Hi. destruct (Hargs i tok Hi) as (off & Hoff & Htok).
      exists off. split; [exact Hoff |]. split; [exact Htok |].
      destruct Htok as (Hnt & tail & Htail).
      cbn [string_at]. rewrite Htail. now apply cstring_token.
    + intros Hnone.
      assert (Hsel : select argv0 buf = Drop []).
      { unfold select. rewrite Hp, Hnone. reflexivity. }
      split; [exact Hsel |]. intros K fuel m. unfold runcmd. now rewrite Hsel.
  - intros Hover.
    destruct (tokenize_overflows line junk argv0 Hnn Hlen) as [b Hb].
    { fold toks. unfold MAXARGS. lia. }
    fold buf in Hb.
    assert (Hsel : select argv0 buf =
                   Drop [Cprintf "Too many arguments (max %d)\n" [AInt 16]]).
    { unfold select. rewrite Hb. reflexivity. }
    split; [exact Hsel |]. intros K fuel m. unfold runcmd. now rewrite Hsel.
Qed.

Lemma tokenizer_contract_witness :
  let line := [" "; " "; "a"; " "; " "; "b"; "009"; "c"; "010"]%char in
  (exists argv,
     tokenize (repeat None 16) (line ++ [NUL]) =
       Args 3 argv
         ["000"; "000"; "a"; "000"; "000"; "b"; "000"; "c"; "000"; "000"]%char /\
     argv !! 0%nat = Some (Some 2%nat) /\
     argv !! 3%nat = Some None) /\
  select (repeat None 16)
    (list_ascii_of_string "1 2 3 4 5 6 7 8 9 10 11 12 13 14 15 16" ++ [NUL]) =
    Drop [Cprintf "Too many arguments (max %d)\n" [AInt 16]].
Proof.
  intros line. split.
  - destruct (tokenizer_contract line [] (repeat None 16)) as [Hfit _].
    + unfold line. no_NUL.
    + reflexivity.
    + destruct Hfit as (argv & Hp & _ & Hnull & _); [vm_compute; lia |].
      exists argv. split; [exact Hp |]. split; [| exact Hnull].
      vm_compute in Hp. injection Hp as <-. reflexivity.
  - destruct (tokenizer_contract
                (list_ascii_of_string "1 2 3 4 5 6 7 8 9 10 11 12 13 14 15 16")
                [] (repeat None 16)) as [_ Hover].
    + cbn. no_NUL.
    + reflexivity.
    + apply Hover. vm_compute. lia.
Defined.

(** C5 does not hold of the code.  The table registers the permission
    editor under the name [setpremission]; a line whose first token is
    [setpermission], the name of the handler's own usage line, matches no
    entry, so [runcmd] prints the unknown-command line, calls no handler
    and returns 0. *)
Theorem setpermission_lookup_fails (line junk : list ascii)
    (argv0 : list (option nat)) (rest : list (list ascii)) :
  Forall (fun c => c <> NUL) line ->
  length argv0 = MAXARGS ->
  tokens line = list_ascii_of_string "setpermission" :: rest ->
  (length rest < 15)%nat ->
  lookup_command commands "setpermission" = None /\
  (exists c, lookup_command commands "setpremission" = Some c /\
             func c = Mon_setpermission) /\
  select argv0 (line ++ NUL :: junk) =
    Drop [Cprintf "Unknown command '%s'\n" [AStr "setpermission"]] /\
  forall K fuel m,
    runcmd K fuel argv0 (line ++ NUL :: junk) m =
      mkRun (Returned 0) [Cprintf "Unknown command '%s'\n" [AStr "setpermission"]] m.
Proof.
  intros Hnn Hlen Htoks Hrest.
  split; [reflexivity |]. split; [eexists; split; reflexivity |].
  destruct (select_first_token line junk argv0 Hnn Hlen _ rest Htoks)
    as (args & _ & Hsel).
  { unfold MAXARGS. lia. }
  change (lookup_command commands
            (string_of_list_ascii (list_ascii_of_string "setpermission")))
    with (@None Command) in Hsel.
  change (string_of_list_ascii (list_ascii_of_string "setpermission"))
    with "setpermission"%string in Hsel.
  split; [exact Hsel |].
  intros K fuel m. unfold runcmd. now rewrite Hsel.
Qed.

Lemma setpermission_lookup_fails_witness :
  runcmd demo_kernel 8 (repeat None 16)
    (list_ascii_of_string "setpermission 0x2000 s u" ++ [NUL]) demo_memory =
    mkRun (Returned 0) [Cprintf "Unknown command '%s'\n" [AStr "setpermission"]]
      demo_memory.
Proof.
  destruct (setpermission_lookup_fails
              (list_ascii_of_string "setpermission 0x2000 s u") []
              (repeat None 16)
              [list_ascii_of_string "0x2000"; list_ascii_of_string "s";
               list_ascii_of_string "u"]) as (_ & _ & _ & Hrun).
  - cbn. no_NUL.
  - reflexivity.
  - reflexivity.
  - cbn. lia.
  - apply Hrun.
Defined.

(** ** Dispatch of a tokenized line *)

Section Lookup.

Local Open Scope nat_scope.

Lemma map_string_at (buf' : list ascii) (toks : list (list ascii)) :
  forall argv : list (option nat),
    (forall i tok, toks !! i = Some tok ->
       exists off, argv !! i = Some (Some off) /\ token_at buf' off tok) ->
    List.map (string_at buf') (take (length toks) argv) =
    List.map string_of_list_ascii toks.
Proof.
  induction toks as [| tok toks IH]; intros argv Hargs; [reflexivity |].
  destruct (Hargs 0 tok eq_refl) as (off & Hoff & Hnn & tail & Htail).
  destruct argv as [| slot argv']; [discriminate Hoff |].
  cbn in Hoff. injection Hoff as ->.
  cbn [length take List.map string_at]. rewrite Htail, (cstring_token tok tail Hnn).
  f_equal. apply IH. intros i tk Hi. exact (Hargs (S i) tk Hi).
Qed.

Lemma lookup_command_none (cmds : list Command) (s : string) :
  (forall c, In c cmds -> name c <> s) -> lookup_command cmds s = None.
Proof.
  induction cmds as [| c cmds IH]; intros Hall; [reflexivity |].
  cbn [lookup_command].
  destruct (String.eqb_spec s (name c)) as [Heq | _].
  - exfalso. apply (Hall c); [now left | now symmetry].
  - apply IH. intros c' Hc'. apply Hall. now right.
Qed.

Lemma lookup_command_table (c : Command) :
  In c commands -> lookup_command commands (name c) = Some c.
Proof.
  intros Hc. cbn in Hc.
  destruct Hc as [<- | [<- | [<- | [<- | [<- | []]]]]]; reflexivity.
Qed.

Variable line junk : list ascii.
Variable argv0 : list (option nat).
Hypothesis line_no_NUL : Forall (fun c => c <> NUL) line.
Hypothesis argv0_slots : length argv0 = MAXARGS.

(** What [runcmd] does with a line of one to fifteen tokens. *)
Lemma select_tokens (tok0 : list ascii) (rest : list (list ascii)) :
  tokens line = tok0 :: rest ->
  length rest < MAXARGS - 1 ->
  select argv0 (line ++ NUL :: junk) =
    match lookup_command commands (string_of_list_ascii tok0) with
    | Some c =>
        Invoke (func c) (Z.of_nat (S (length rest)))
          (List.map string_of_list_ascii (tok0 :: rest))
    | None => Drop [Cprintf "Unknown command '%s'\n" [AStr (string_of_list_ascii tok0)]]
    end.
Proof.
  intros Htoks Hrest.
  destruct (tokenize_fits line junk argv0 line_no_NUL argv0_slots)
    as (argv & Hp & _ & Hargs & _).
  { rewrite Htoks. cbn [length]. unfold MAXARGS in *. lia. }
  unfold select. rewrite Hp.
  rewrite (map_string_at _ (tokens line) argv Hargs).
  rewrite Htoks. reflexivity.
Qed.

Lemma runcmd_found (K : Kernel) (fuel : nat) (m : memory)
    (tok0 : list ascii) (rest : list (list ascii)) (c : Command) :
  tokens line = tok0 :: rest ->
  length rest < MAXARGS - 1 ->
  lookup_command commands (string_of_list_ascii tok0) = Some c ->
  runcmd K fuel argv0 (line ++ NUL :: junk) m =
    run_handler K (func c) fuel (Z.of_nat (S (length rest)))
      (List.map string_of_list_ascii (tok0 :: rest)) m.
Proof.
  intros Htoks Hrest Hc. unfold runcmd.
  now rewrite (select_tokens tok0 rest Htoks Hrest), Hc.
Qed.

Lemma runcmd_named (K : Kernel) (fuel : nat) (m : memory)
    (rest : list (list ascii)) (c : Command) :
  In c commands ->
  tokens line = list_ascii_of_string (name c) :: rest ->
  length rest < MAXARGS - 1 ->
  runcmd K fuel argv0 (line ++ NUL :: junk) m =
    run_handler K (func c) fuel (Z.of_nat (S (length rest)))
      (name c :: List.map string_of_list_ascii rest) m.
Proof.
  intros Hc Htoks Hrest.
  rewrite (runcmd_found K fuel m _ rest c Htoks Hrest).
  - cbn [List.map]. now rewrite string_of_list_ascii_of_string.
  - rewrite string_of_list_ascii_of_string. now apply lookup_command_table.
Qed.

End Lookup.

(** X1.  A line of at most fifteen tokens whose first token is the name
    of an entry of the command table makes [runcmd] call the handler of
    that entry, with the number of tokens as [argc] and the tokens, in
    order, as [argv]; the result of [runcmd] is the result of the
    handler. *)
Theorem runcmd_dispatch (K : Kernel) (fuel : nat) (m : memory)
    (line junk : list ascii) (argv0 : list (option nat))
    (rest : list (list ascii)) (c : Command) :
  Forall (fun c => c <> NUL) line ->
  length argv0 = MAXARGS ->
  In c commands ->
  tokens line = list_ascii_of_string (name c) :: rest ->
  (length rest < 15)%nat ->
  select argv0 (line ++ NUL :: junk) =
    Invoke (func c) (Z.of_nat (S (length rest)))
      (name c :: List.map string_of_list_ascii rest) /\
  runcmd K fuel argv0 (line ++ NUL :: junk) m =
    run_handler K (func c) fuel (Z.of_nat (S (length rest)))
      (name c :: List.map string_of_list_ascii rest) m.
Proof.
  intros Hnn Hlen Hc Htoks Hrest. split.
  - rewrite (select_tokens line junk argv0 Hnn Hlen _ rest Htoks)
      by (unfold MAXARGS; lia).
    cbn [List.map].
    rewrite string_of_list_ascii_of_string, (lookup_command_table c Hc).
    reflexivity.
  - apply runcmd_named; try assumption.
Qed.

Lemma runcmd_dispatch_witness :
  select (repeat None 16) (list_ascii_of_string "showmappings 0x1000 0x3000" ++ [NUL]) =
    Invoke Mon_showmapping 3 ["showmappings"; "0x1000"; "0x3000"]%string.
Proof.
  destruct (runcmd_dispatch demo_kernel 8 demo_memory
              (list_ascii_of_string "showmappings 0x1000 0x3000") []
              (repeat None 16)
              [list_ascii_of_string "0x1000"; list_ascii_of_string "0x3000"]
              {| name := "showmappings";
                 desc := "Display virtual/linear to physical mapping";
                 func := Mon_showmapping |}) as [Hsel _].
  - cbn. no_NUL.
  - reflexivity.
  - cbn. tauto.
  - reflexivity.
  - cbn. lia.
  - exact Hsel.
Defined.

(** X2.  A line of at most fifteen tokens whose first token is not the
    name of any entry of the command table (the comparison is exact, so a
    different case or spelling is enough) makes [runcmd] print the
    unknown-command line with that token, call no handler, leave memory
    as it is and return 0. *)
Theorem runcmd_unknown (K : Kernel) (fuel : nat) (m : memory)
    (line junk : list ascii) (argv0 : list (option nat))
    (tok0 : list ascii) (rest : list (list ascii)) :
  Forall (fun c => c <> NUL) line ->
  length argv0 = MAXARGS ->
  tokens line = tok0 :: rest ->
  (length rest < 15)%nat ->
  (forall c, In c commands -> name c <> string_of_list_ascii tok0) ->
  select argv0 (line ++ NUL :: junk) =
    Drop [Cprintf "Unknown command '%s'\n" [AStr (string_of_list_ascii tok0)]] /\
  runcmd K fuel argv0 (line ++ NUL :: junk) m =
    mkRun (Returned 0)
      [Cprintf "Unknown command '%s'\n" [AStr (string_of_list_ascii tok0)]] m.
Proof.
  intros Hnn Hlen Htoks Hrest Hnone.
  assert (Hsel : select argv0 (line ++ NUL :: junk) =
                 Drop [Cprintf "Unknown command '%s'\n"
                         [AStr (string_of_list_ascii tok0)]]).
  { rewrite (select_tokens line junk argv0 Hnn Hlen _ rest Htoks)
      by (unfold MAXARGS; lia).
    now rewrite (lookup_command_none commands _ Hnone). }
  split; [exact Hsel |]. unfold runcmd. now rewrite Hsel.
Qed.

Lemma runcmd_unknown_witness :
  runcmd demo_kernel 8 (repeat None 16)
    (list_ascii_of_string "Help me" ++ [NUL]) demo_memory =
    mkRun (Returned 0) [Cprintf "Unknown command '%s'\n" [AStr "Help"]] demo_memory.
Proof.
  destruct (runcmd_unknown demo_kernel 8 demo_memory
              (list_ascii_of_string "Help me") [] (repeat None 16)
              (list_ascii_of_string "Help") [list_ascii_of_string "me"])
    as [_ Hrun].
  - cbn. no_NUL.
  - reflexivity.
  - reflexivity.
  - cbn. lia.
  - intros c Hc. cbn in Hc.
    destruct Hc as [<- | [<- | [<- | [<- | [<- | []]]]]]; discriminate.
  - exact Hrun.
Defined.

(** ** What every command has in common *)

Section Handler_results.

Variable K : Kernel.

Lemma backtrace_loop_result (m : memory) (fuel : nat) :
  forall ebp,
    fst (backtrace_loop K fuel m ebp) = Returned 0 \/
    fst (backtrace_loop K fuel m ebp) = OutOfFuel.
Proof.
  induction fuel as [| fuel IH]; intros ebp; [now right |].
  cbn [backtrace_loop]. destruct (ebp =? 0); [now left |].
  specialize (IH (m ebp)).
  now destruct (backtrace_loop K fuel m (m ebp)).
Qed.

Lemma showmapping_loop_result (m : memory) (end_ : Z) (fuel : nat) :
  forall begin,
    fst (showmapping_loop K fuel m begin end_) = Returned 0 \/
    fst (showmapping_loop K fuel m begin end_) = Panicked \/
    fst (showmapping_loop K fuel m begin end_) = OutOfFuel.
Proof.
  induction fuel as [| fuel IH]; intros begin; [now right; right |].
  cbn [showmapping_loop]. destruct (begin <=? end_); [| now left].
  destruct (pgdir_walk K begin); [| now right; left].
  specialize (IH (to_u32 (begin + PGSIZE))).
  now destruct (showmapping_loop K fuel m (to_u32 (begin + PGSIZE)) end_).
Qed.

Lemma mon_backtrace_fields (fuel : nat) (argc : Z) (argv : list string) (m : memory) :
  result (mon_backtrace K fuel argc argv m) = fst (backtrace_loop K fuel m (read_ebp K)) /\
  final (mon_backtrace K fuel argc argv m) = m.
Proof.
  unfold mon_backtrace. now destruct (backtrace_loop K fuel m (read_ebp K)).
Qed.

Lemma mon_showmapping_fields (fuel : nat) (argc : Z) (argv : list string) (m : memory) :
  (result (mon_showmapping K fuel argc argv m) = Returned 0 \/
   result (mon_showmapping K fuel argc argv m) = Panicked \/
   result (mon_showmapping K fuel argc argv m) = OutOfFuel) /\
  final (mon_showmapping K fuel argc argv m) = m.
Proof.
  unfold mon_showmapping. destruct (negb (argc =? 3)); [now split; [left |] |].
  set (b := to_u32 (strtol K (argv_at argv 1) 16)).
  set (e := to_u32 (strtol K (argv_at argv 2) 16)).
  pose proof (showmapping_loop_result m e fuel b) as Hres.
  now destruct (showmapping_loop K fuel m b e).
Qed.

Lemma mon_setpermission_fields (argc : Z) (argv : list string) (m : memory) :
  (result (mon_setpermission K argc argv m) = Returned 0 \/
   result (mon_setpermission K argc argv m) = NullDeref) /\
  ((forall q, final (mon_setpermission K argc argv m) q = m q) \/
   exists va entry,
     pgdir_walk K va = Some entry /\
     forall q, q <> entry -> final (mon_setpermission K argc argv m) q = m q).
Proof.
  unfold mon_setpermission. destruct (negb (argc =? 4)); [now split; left |].
  destruct (pgdir_walk K (to_u32 (strtol K (argv_at argv 1) 16))) as [entry |] eqn:Hw;
    [| now split; [right | left]].
  split; [now left |]. right. exists (to_u32 (strtol K (argv_at argv 1) 16)), entry.
  split; [exact Hw |]. intros q Hq. cbn [final]. now apply mem_write_other.
Qed.

(** How a handler can end, and what it can have written. *)
Lemma run_handler_fields (h : handler) (fuel : nat) (argc : Z) (argv : list string)
    (m : memory) :
  (result (run_handler K h fuel argc argv m) = Returned 0 \/
   result (run_handler K h fuel argc argv m) = Panicked \/
   result (run_handler K h fuel argc argv m) = NullDeref \/
   result (run_handler K h fuel argc argv m) = OutOfFuel) /\
  ((forall q, final (run_handler K h fuel argc argv m) q = m q) \/
   exists va entry,
     pgdir_walk K va = Some entry /\
     forall q, q <> entry -> final (run_handler K h fuel argc argv m) q = m q).
Proof.
  destruct h; cbn [run_handler].
  - split; [now left | now left].
  - split; [now left | now left].
  - destruct (mon_backtrace_fields fuel argc argv m) as [-> ->].
    split; [| now left].
    destruct (backtrace_loop_result m fuel (read_ebp K)) as [-> | ->]; tauto.
  - destruct (mon_showmapping_fields fuel argc argv m) as [Hres ->].
    split; [tauto | now left].
  - destruct (mon_setpermission_fields argc argv m) as [Hres Hmem].
    split; [tauto | exact Hmem].
Qed.

Lemma runcmd_fields (fuel : nat) (argv0 : list (option nat)) (buf : list ascii)
    (m : memory) :
  (result (runcmd K fuel argv0 buf m) = Returned 0 \/
   result (runcmd K fuel argv0 buf m) = Panicked \/
   result (runcmd K fuel argv0 buf m) = NullDeref \/
   result (runcmd K fuel argv0 buf m) = OutOfFuel \/
   result (runcmd K fuel argv0 buf m) = OutOfBounds) /\
  ((forall q, final (runcmd K fuel argv0 buf m) q = m q) \/
   exists va entry,
     pgdir_walk K va = Some entry /\
     forall q, q <> entry -> final (runcmd K fuel argv0 buf m) q = m q).
Proof.
  unfold runcmd. destruct (select argv0 buf) as [out | h argc argv |].
  - split; [now left | now left].
  - destruct (run_handler_fields h fuel argc argv m) as [Hres Hmem].
    split; [tauto | exact Hmem].
  - split; [tauto | now left].
Qed.

End Handler_results.

(** X3.  Whatever the line buffer holds, a call of [runcmd] that returns
    returns 0: no command of the table asks the monitor to exit. *)
Theorem runcmd_returns_zero (K : Kernel) (fuel : nat) (argv0 : list (option nat))
    (buf : list ascii) (m : memory) (r : Z) :
  result (runcmd K fuel argv0 buf m) = Returned r -> r = 0.
Proof.
  intros Hr.
  destruct (runcmd_fields K fuel argv0 buf m) as [Hres _].
  rewrite Hr in Hres.
  destruct Hres as [H | [H | [H | [H | H]]]]; congruence.
Qed.

Lemma runcmd_returns_zero_witness :
  exists r,
    result (runcmd demo_kernel 8 (repeat None 16)
              (list_ascii_of_string "backtrace" ++ [NUL]) demo_memory) = Returned r /\
    r = 0.
Proof.
  exists 0. split; [reflexivity |].
  apply (runcmd_returns_zero demo_kernel 8 (repeat None 16)
           (list_ascii_of_string "backtrace" ++ [NUL]) demo_memory).
  reflexivity.
Defined.


(** X5.  [monitor] never leaves its loop through the [break]: on any
    console input it ends waiting in [readline] or inside a command that
    does not return (a panic, a null dereference, a read past the buffer
    or a loop that does not finish).  Its output starts with the two
    banner lines, followed by the trap frame when there is one. *)
Theorem monitor_never_exits (K : Kernel) (fuel : nat) (tf : bool)
    (inputs : list console_input) (m : memory) :
  let run := monitor K fuel tf inputs m in
  (ending run = AwaitingInput \/
   ending run = Stopped Panicked \/
   ending run = Stopped NullDeref \/
   ending run = Stopped OutOfFuel \/
   ending run = Stopped OutOfBounds) /\
  exists rest,
    output run =
      Ran (Cprintf "Welcome to the JOS kernel monitor!\n" []) ::
      Ran (Cprintf "Type 'help' for a list of commands.\n" []) ::
      (if tf then [PrintTrapframe] else []) ++ Readline "K> " :: rest.
Proof.
  intros run. subst run. unfold monitor. cbn [ending output]. split.
  - revert m. induction inputs as [| input inputs IH]; intros m; [now left |].
    cbn [monitor_loop]. destruct (typed input) as [buf |]; [| apply IH].
    destruct (runcmd_fields K fuel (slots input) buf m) as [Hres _].
    destruct Hres as [-> | [-> | [-> | [-> | ->]]]]; cbn [Z.ltb Z.compare ending]; auto.
  - destruct inputs as [| input inputs]; cbn [monitor_loop]; [eauto |].
    destruct (typed input); [| cbn [output]; eauto].
    destruct (result (runcmd K fuel (slots input) l m)) as [v | | | |];
      try (cbn [output]; eauto).
    destruct (v <? 0); cbn [output app]; eauto.
Qed.

(** ** More on setpermission *)

Lemma word_of_bits (x : Z) :
  (forall i, 32 <= i -> Z.testbit x i = false) -> 0 <= x < 2 ^ 32.
Proof.
  intros Hhigh.
  assert (Hx : to_u32 x = x).
  { rewrite to_u32_ones. apply Z.bits_inj'. intros i Hi.
    rewrite Z.land_spec, Z.testbit_ones_nonneg by lia.
    destruct (Z.ltb_spec i 32) as [_ | Hge]; [apply andb_true_r |].
    rewrite (Hhigh i Hge). reflexivity. }
  rewrite <- Hx. apply to_u32_range.
Qed.

Lemma perm_mask_range (perm : ascii) : 0 <= perm_mask perm < 2 ^ 32.
Proof.
  unfold perm_mask, PTE_P, PTE_W, PTE_U.
  destruct (Ascii.eqb perm "p"), (Ascii.eqb perm "w"), (Ascii.eqb perm "u"); lia.
Qed.

(** The bits of the word that [setpermission] writes back. *)
Lemma apply_perm_bits (set : ascii) (e p i : Z) :
  0 <= e < 2 ^ 32 -> 0 <= p < 2 ^ 32 -> 0 <= i ->
  Z.testbit (apply_perm set e p) i =
    if Ascii.eqb set "s" then Z.testbit e i || Z.testbit p i
    else if Ascii.eqb set "c" then Z.testbit e i && negb (Z.testbit p i)
    else Z.testbit e i.
Proof.
  intros He Hp Hi. unfold apply_perm.
  destruct (Ascii.eqb set "s").
  - now rewrite (to_u32_small p Hp), Z.lor_spec.
  - destruct (Ascii.eqb set "c"); [| reflexivity].
    rewrite to_u32_ones, !Z.land_spec, Z.lnot_spec by lia.
    rewrite Z.testbit_ones_nonneg by lia.
    destruct (Z.ltb_spec i 32) as [_ | Hge]; [now rewrite andb_true_r |].
    now rewrite (word_high_bits e i He Hge).
Qed.

Lemma apply_perm_frame (set : ascii) (b : perm_bit) (e : Z) :
  0 <= e < 2 ^ 32 ->
  let e' := apply_perm set e (mask b) in
  (forall i, 0 <= i -> i <> bit_index b -> Z.testbit e' i = Z.testbit e i) /\
  PTE_ADDR e' = PTE_ADDR e /\
  0 <= e' < 2 ^ 32.
Proof.
  intros He e'.
  assert (Hbit : forall i, 0 <= i -> Z.testbit (mask b) i = (i =? bit_index b)).
  { intros i Hi. rewrite mask_pow2, Z.pow2_bits_eqb by (destruct b; cbn; lia).
    apply Z.eqb_sym. }
  assert (Hkeep : forall i, 0 <= i -> i <> bit_index b -> Z.testbit e' i = Z.testbit e i).
  { intros i Hi Hne. unfold e'.
    rewrite (apply_perm_bits set e (mask b) i He (mask_range b) Hi), (Hbit i Hi).
    destruct (Z.eqb_spec i (bit_index b)) as [Heq | _]; [contradiction |].
    cbn [negb]. rewrite orb_false_r, andb_true_r.
    now destruct (Ascii.eqb set "s"), (Ascii.eqb set "c"). }
  split; [exact Hkeep |]. split.
  - unfold PTE_ADDR. rewrite to_u32_ones. apply Z.bits_inj'. intros i Hi.
    rewrite !Z.land_spec, Z.lnot_spec by lia.
    change 0xFFF with (Z.ones 12). rewrite !Z.testbit_ones_nonneg by lia.
    destruct (Z.ltb_spec i 12) as [Hlow | Hup].
    + cbn [negb andb]. now rewrite !andb_false_r.
    + rewrite Hkeep; [reflexivity | lia | destruct b; cbn; lia].
  - apply word_of_bits. intros i Hi.
    rewrite Hkeep; [now apply word_high_bits | lia | destruct b; cbn; lia].
Qed.

(** X6.  Whatever the entry word held before (any 32-bit word):
    [setpermission ADDR s B] leaves bit B set and [setpermission ADDR c B]
    leaves it clear, for B one of P, W, U; with either direction the
    frame address and every bit other than B keep their value and the
    stored word is a 32-bit word. *)
Theorem setpermission_postcondition (K : Kernel) (m : memory) (b : perm_bit)
    (a0 a1 s_rest c_rest p_rest : string) (entry : Z) :
  pgdir_walk K (to_u32 (strtol K a1 16)) = Some entry ->
  0 <= m entry < 2 ^ 32 ->
  let sel := String (selector b) p_rest in
  let set_run := mon_setpermission K 4 [a0; a1; String "s" s_rest; sel] m in
  let clear_run := mon_setpermission K 4 [a0; a1; String "c" c_rest; sel] m in
  let kept e' :=
    (forall i, 0 <= i -> i <> bit_index b -> Z.testbit e' i = Z.testbit (m entry) i) /\
    PTE_ADDR e' = PTE_ADDR (m entry) /\
    0 <= e' < 2 ^ 32 in
  Z.testbit (final set_run entry) (bit_index b) = true /\
  flag (final set_run entry) (mask b) = 1 /\
  kept (final set_run entry) /\
  Z.testbit (final clear_run entry) (bit_index b) = false /\
  flag (final clear_run entry) (mask b) = 0 /\
  kept (final clear_run entry).
Proof.
  intros Hw He sel set_run clear_run kept.
  assert (Hidx : 0 <= bit_index b) by (destruct b; cbn; lia).
  assert (Hself : Z.testbit (mask b) (bit_index b) = true).
  { rewrite mask_pow2, Z.pow2_bits_eqb by exact Hidx. apply Z.eqb_refl. }
  assert (Hflag : forall x, flag x (mask b) = if Z.testbit x (bit_index b) then 1 else 0).
  { intros x. unfold flag.
    assert (Hland : Z.land x (mask b) =
                    if Z.testbit x (bit_index b) then mask b else 0).
    { apply Z.bits_inj'. intros i Hi. rewrite Z.land_spec.
      rewrite mask_pow2 at 1. rewrite Z.pow2_bits_eqb by exact Hidx.
      destruct (Z.eqb_spec (bit_index b) i) as [<- | Hne].
      - rewrite andb_true_r.
        destruct (Z.testbit x (bit_index b)); [now rewrite Hself | now rewrite Z.bits_0].
      - rewrite andb_false_r.
        destruct (Z.testbit x (bit_index b)); [| now rewrite Z.bits_0].
        rewrite mask_pow2, Z.pow2_bits_eqb by exact Hidx.
        symmetry. now apply Z.eqb_neq. }
    rewrite Hland. destruct (Z.testbit x (bit_index b)); [| reflexivity].
    destruct b; reflexivity. }
  assert (Hs : final set_run entry = apply_perm "s" (m entry) (mask b)).
  { subst set_run. rewrite (mon_setpermission_found K m _ _ _ _ entry Hw).
    cbn [final]. rewrite mem_write_same. subst sel.
    change (first_char (String (selector b) p_rest)) with (selector b).
    now rewrite perm_mask_selector. }
  assert (Hc : final clear_run entry = apply_perm "c" (m entry) (mask b)).
  { subst clear_run. rewrite (mon_setpermission_found K m _ _ _ _ entry Hw).
    cbn [final]. rewrite mem_write_same. subst sel.
    change (first_char (String (selector b) p_rest)) with (selector b).
    now rewrite perm_mask_selector. }
  assert (Hsb : Z.testbit (final set_run entry) (bit_index b) = true).
  { rewrite Hs, (apply_perm_bits _ _ _ _ He (mask_range b) Hidx), Hself.
    cbn. apply orb_true_r. }
  assert (Hcb : Z.testbit (final clear_run entry) (bit_index b) = false).
  { rewrite Hc, (apply_perm_bits _ _ _ _ He (mask_range b) Hidx), Hself.
    cbn. apply andb_false_r. }
  split; [exact Hsb |]. split; [now rewrite Hflag, Hsb |].
  split; [unfold kept; rewrite Hs; now apply apply_perm_frame |].
  split; [exact Hcb |]. split; [now rewrite Hflag, Hcb |].
  unfold kept. rewrite Hc. now apply apply_perm_frame.
Qed.

Lemma setpermission_postcondition_witness :
  let set_run := mon_setpermission demo_kernel 4
                   ["setpremission"; "0x2000"; "s"; "w"]%string demo_memory in
  let clear_run := mon_setpermission demo_kernel 4
                     ["setpremission"; "0x2000"; "c"; "w"]%string demo_memory in
  flag (final set_run 0xEFC00008) PTE_W = 1 /\
  flag (final clear_run 0xEFC00008) PTE_W = 0 /\
  PTE_ADDR (final clear_run 0xEFC00008) = 0x00155000.
Proof.
  intros set_run clear_run.
  destruct (setpermission_postcondition demo_kernel demo_memory BitW
              "setpremission" "0x2000" "" "" "" 0xEFC00008)
    as (_ & Hset & _ & _ & Hclear & _ & Haddr & _).
  - reflexivity.
  - vm_compute. split; [discriminate | reflexivity].
  - split; [exact Hset |]. split; [exact Hclear | exact Haddr].
Defined.

(** X7.  When the selector character is none of [p], [w], [u], or the
    direction character is neither [s] nor [c], [setpermission] with four
    arguments writes the entry word back unchanged (for a 32-bit entry
    word): memory is as before, the line printed after the heading
    "After setting" is the line printed before it, and the result is 0. *)
Theorem setpermission_other_characters (K : Kernel) (m : memory)
    (a0 a1 a2 a3 : string) (entry : Z) :
  pgdir_walk K (to_u32 (strtol K a1 16)) = Some entry ->
  0 <= m entry < 2 ^ 32 ->
  (first_char a3 <> "p" /\ first_char a3 <> "w" /\ first_char a3 <> "u")%char \/
  (first_char a2 <> "s" /\ first_char a2 <> "c")%char ->
  let addr := to_u32 (strtol K a1 16) in
  let r := mon_setpermission K 4 [a0; a1; a2; a3] m in
  result r = Returned 0 /\
  (forall q, final r q = m q) /\
  trace r =
    [ PgdirWalk addr 0; Cprintf "Before setting:\n" [];
      print_entry addr (m entry);
      Cprintf "After setting:\n" [];
      print_entry addr (m entry) ].
Proof.
  intros Hw He Hother addr r.
  assert (Hsame : apply_perm (first_char a2) (m entry) (perm_mask (first_char a3)) = m entry).
  { destruct Hother as [(Hp & Hw' & Hu) | (Hs & Hc)].
    - assert (Hmask : perm_mask (first_char a3) = 0).
      { unfold perm_mask.
        apply Ascii.eqb_neq in Hp, Hw', Hu. now rewrite Hp, Hw', Hu. }
      rewrite Hmask. apply Z.bits_inj'. intros i Hi.
      rewrite (apply_perm_bits _ _ 0 i He ltac:(lia) Hi), Z.bits_0.
      cbn [negb]. rewrite orb_false_r, andb_true_r.
      now destruct (Ascii.eqb (first_char a2) "s"), (Ascii.eqb (first_char a2) "c").
    - unfold apply_perm. apply Ascii.eqb_neq in Hs, Hc. now rewrite Hs, Hc. }
  subst r. rewrite (mon_setpermission_found K m a0 a1 a2 a3 entry Hw).
  cbn [result final trace]. rewrite Hsame. fold addr.
  split; [reflexivity |]. split; [| reflexivity].
  intros q. unfold mem_write. destruct (Z.eqb_spec q entry) as [-> | _]; reflexivity.
Qed.

Lemma setpermission_other_characters_witness :
  let r := mon_setpermission demo_kernel 4
             ["setpremission"; "0x2000"; "c"; "x"]%string demo_memory in
  result r = Returned 0 /\ final r 0xEFC00008 = 0x00155003.
Proof.
  intros r.
  destruct (setpermission_other_characters demo_kernel demo_memory
              "setpremission" "0x2000" "c" "x" 0xEFC00008)
    as (Hres & Hmem & _).
  - reflexivity.
  - vm_compute. split; [discriminate | reflexivity].
  - left. repeat split; discriminate.
  - split; [exact Hres | exact (Hmem 0xEFC00008)].
Defined.

(** X8.  [showmappings A A] after [setpermission A ...] prints, for an
    address [A] below the last page, exactly the line that
    [setpermission] printed last, after its heading "After setting": one
    call of the accessor, one line, result 0. *)
Theorem setpermission_then_showmappings (K : Kernel) (m : memory)
    (a0 a1 a2 a3 b0 : string) (entry : Z) (fuel : nat) :
  let addr := to_u32 (strtol K a1 16) in
  pgdir_walk K addr = Some entry ->
  addr < 2 ^ 32 - PGSIZE ->
  let r := mon_setpermission K 4 [a0; a1; a2; a3] m in
  exists line,
    last (trace r) = Some line /\
    mon_showmapping K (S (S fuel)) 3 [b0; a1; a1] (final r) =
      mkRun (Returned 0) [PgdirWalk addr 0; line] (final r).
Proof.
  intros addr Hw Hlow r.
  pose proof (to_u32_range (strtol K a1 16)) as Ha. fold addr in Ha.
  exists (print_entry addr (final r entry)). split.
  - subst r. rewrite (mon_setpermission_found K m a0 a1 a2 a3 entry Hw).
    cbn [trace final]. now rewrite mem_write_same.
  - pose proof (mon_showmapping_reaches K (final r) b0 a1 a1 0 (S fuel)) as Hrun.
    cbv zeta in Hrun. rewrite nth_addr_0 in Hrun. fold addr in Hrun.
    cbn [Nat.add] in Hrun. rewrite Hrun; [| lia | intros j Hj; lia].
    rewrite Hw. cbn [rounds seq List.map flat_map app].
    rewrite (to_u32_small (addr + PGSIZE)) by (unfold PGSIZE in *; lia).
    cbn [showmapping_loop].
    destruct (Z.leb_spec (addr + PGSIZE) addr) as [Hbad | _];
      [unfold PGSIZE in *; lia |].
    reflexivity.
Qed.

Lemma setpermission_then_showmappings_witness :
  let r := mon_setpermission demo_kernel 4
             ["setpremission"; "0x2000"; "c"; "p"]%string demo_memory in
  mon_showmapping demo_kernel 2 3 ["showmappings"; "0x2000"; "0x2000"]%string (final r) =
    mkRun (Returned 0)
      [ PgdirWalk 0x2000 0;
        Cprintf "0x%x: page table entry doesn't exist.\n" [AInt 0x2000] ]
      (final r).
Proof.
  intros r.
  destruct (setpermission_then_showmappings demo_kernel demo_memory
              "setpremission" "0x2000" "c" "p" "showmappings" 0xEFC00008 0)
    as (line & Hlast & Hrun).
  - reflexivity.
  - vm_compute. reflexivity.
  - fold r in Hlast, Hrun. rewrite Hrun.
    vm_compute in Hlast. injection Hlast as <-. reflexivity.
Defined.

(** ** Commands with the wrong number of arguments, and help *)







(** ** More on backtrace *)

Section Backtrace_termination.

Variable K : Kernel.
Variable m : memory.

Local Open Scope nat_scope.

Lemma backtrace_loop_returns (n : nat) :
  forall (ebp : Z) (fuel : nat),
    saved_fp m n ebp = 0%Z -> n < fuel ->
    fst (backtrace_loop K fuel m ebp) = Returned 0.
Proof.
  induction n as [| n IH]; intros ebp fuel Hz Hfuel;
    (destruct fuel as [| fuel]; [lia |]); cbn [backtrace_loop saved_fp] in *.
  - subst ebp. reflexivity.
  - destruct (ebp =? 0)%Z; [reflexivity |].
    specialize (IH (m ebp) fuel Hz ltac:(lia)).
    now destruct (backtrace_loop K fuel m (m ebp)).
Qed.

Lemma backtrace_loop_returned (fuel : nat) :
  forall ebp,
    fst (backtrace_loop K fuel m ebp) = Returned 0 ->
    exists n, n < fuel /\ saved_fp m n ebp = 0%Z.
Proof.
  induction fuel as [| fuel IH]; intros ebp Hr; [discriminate Hr |].
  cbn [backtrace_loop] in Hr.
  destruct (Z.eqb_spec ebp 0) as [Hz | _].
  - exists 0. split; [lia | exact Hz].
  - destruct (backtrace_loop K fuel m (m ebp)) as [r t] eqn:Hloop.
    cbn [fst] in Hr. destruct (IH (m ebp)) as (n & Hn & Hz).
    { now rewrite Hloop. }
    exists (S n). split; [lia | exact Hz].
Qed.

Lemma backtrace_loop_spins (fuel : nat) :
  forall ebp,
    (forall n, n < fuel -> saved_fp m n ebp <> 0%Z) ->
    fst (backtrace_loop K fuel m ebp) = OutOfFuel /\
    count is_frame_line (snd (backtrace_loop K fuel m ebp)) = fuel.
Proof.
  induction fuel as [| fuel IH]; intros ebp Hnz; [now split |].
  cbn [backtrace_loop].
  pose proof (Hnz 0 ltac:(lia)) as H0. cbn [saved_fp] in H0.
  destruct (Z.eqb_spec ebp 0) as [Hz | _]; [contradiction |].
  destruct (IH (m ebp)) as [Hres Hcount].
  { intros n Hn. exact (Hnz (S n) ltac:(lia)). }
  destruct (backtrace_loop K fuel m (m ebp)) as [r t]. cbn [fst snd] in *.
  split; [exact Hres |].
  change (frame_line m ebp :: symbol_line K m ebp ++ t)
    with ([frame_line m ebp] ++ symbol_line K m ebp ++ t).
  rewrite !count_app, Hcount. unfold count at 2.
  rewrite symbol_line_no_frame. reflexivity.
Qed.

End Backtrace_termination.

(** X12.  [backtrace] returns exactly when the chain of saved frame
    pointers reaches zero: with [fuel] rounds of the loop it returns 0 if
    and only if one of the first [fuel] frame pointers of the chain is
    zero.  On a chain that never reaches zero (a loop in the saved frame
    pointers, say) it prints one more raw line with every round and does
    not return. *)
Theorem backtrace_returns_iff (K : Kernel) (m : memory) (argc : Z)
    (argv : list string) (fuel : nat) :
  let r := mon_backtrace K fuel argc argv m in
  (result r = Returned 0 <->
   exists n, (n < fuel)%nat /\ saved_fp m n (read_ebp K) = 0) /\
  ((forall n, saved_fp m n (read_ebp K) <> 0) ->
   result r = OutOfFuel /\ count is_frame_line (trace r) = fuel).
Proof.
  intros r. subst r. unfold mon_backtrace. split; [split |].
  - intros Hr. apply (backtrace_loop_returned K m fuel).
    now destruct (backtrace_loop K fuel m (read_ebp K)).
  - intros (n & Hn & Hz).
    pose proof (backtrace_loop_returns K m n (read_ebp K) fuel Hz Hn) as Hr.
    now destruct (backtrace_loop K fuel m (read_ebp K)).
  - intros Hnz.
    destruct (backtrace_loop_spins K m fuel (read_ebp K)) as [Hr Hc].
    { intros n _. apply Hnz. }
    destruct (backtrace_loop K fuel m (read_ebp K)) as [r t].
    cbn [fst snd result trace] in *. split; [exact Hr |].
    change (Cprintf "Stack backtrace:\n" [] :: t)
      with ([Cprintf "Stack backtrace:\n" []] ++ t).
    now rewrite count_app, Hc.
Qed.

Lemma backtrace_returns_iff_witness :
  let r := mon_backtrace demo_kernel 7 1 ["backtrace"%string] looping_memory in
  result r = OutOfFuel /\ count is_frame_line (trace r) = 7%nat.
Proof.
  apply (backtrace_returns_iff demo_kernel looping_memory 1 ["backtrace"%string] 7).
  intros n. induction n as [| n IH]; [discriminate | exact IH].
Defined.

(** ** More on showmappings *)

(** X13.  For [begin <= end] with the walk staying below the last page
    and the accessor returning an entry at every address of the walk,
    [showmappings] prints one line for each address
    [begin + k * PGSIZE <= end] and nothing else, and returns 0.  The last
    address looked up is less than a page below [end]; it lies in the
    page of [end], so that this page is reported, exactly when the offset
    of [begin] in its page is at most the offset of [end] in its page. *)
Theorem showmappings_output (K : Kernel) (m : memory) (a0 a1 a2 : string)
    (fuel : nat) :
  let begin := to_u32 (strtol K a1 16) in
  let end_ := to_u32 (strtol K a2 16) in
  begin <= end_ ->
  let n := Z.to_nat ((end_ - begin) / PGSIZE) in
  nth_addr begin n < 2 ^ 32 - PGSIZE ->
  (forall k, (k <= n)%nat -> is_Some (pgdir_walk K (nth_addr begin k))) ->
  (S n < fuel)%nat ->
  mon_showmapping K fuel 3 [a0; a1; a2] m =
    mkRun (Returned 0) (rounds K m begin (S n)) m /\
  end_ - PGSIZE < nth_addr begin n <= end_ /\
  (nth_addr begin n / PGSIZE = end_ / PGSIZE <-> begin mod PGSIZE <= end_ mod PGSIZE).
Proof.
  intros begin end_ Hle n Hlow Hall Hfuel.
  pose proof (to_u32_range (strtol K a1 16)) as Hb.
  pose proof (to_u32_range (strtol K a2 16)) as He.
  fold begin in Hb. fold end_ in He.
  pose proof (last_round begin end_ Hle) as Hlast. cbv zeta in Hlast. fold n in Hlast.
  rewrite nth_addr_S in Hlast.
  split; [| split].
  - rewrite mon_showmapping_ordered by exact Hle. fold begin end_.
    replace fuel with (S n + (fuel - S n))%nat by lia.
    rewrite (showmapping_loop_rounds K m end_ (S n) begin); try lia.
    + assert (Hnext : 0 <= nth_addr begin (S n) < 2 ^ 32).
      { rewrite nth_addr_S. unfold nth_addr, PGSIZE in *. lia. }
      rewrite (to_u32_small _ Hnext).
      destruct (fuel - S n)%nat as [| f] eqn:Hf; [lia |].
      cbn [showmapping_loop].
      destruct (Z.leb_spec (nth_addr begin (S n)) end_) as [Hbad | _].
      { rewrite nth_addr_S in Hbad. unfold nth_addr, PGSIZE in *. lia. }
      cbn [fst snd]. now rewrite app_nil_r.
    + intros j Hj. split; [| apply Hall; lia].
      transitivity (nth_addr begin n); [apply nth_addr_mono; lia | lia].
  - unfold nth_addr, PGSIZE in *. lia.
  - unfold nth_addr, PGSIZE in *. split; intros H; Z.div_mod_to_equations; lia.
Qed.

Lemma showmappings_output_witness :
  mon_showmapping demo_kernel 3 3 ["showmappings"; "0x1800"; "0x2400"]%string demo_memory =
    mkRun (Returned 0)
      [ PgdirWalk 0x1800 0;
        Cprintf "0x%x: page table entry doesn't exist.\n" [AInt 0x1800] ]
      demo_memory /\
  ~ (0x1800 mod PGSIZE <= 0x2400 mod PGSIZE).
Proof.
  split; [| vm_compute; intros H; now apply H].
  destruct (showmappings_output demo_kernel demo_memory
              "showmappings" "0x1800" "0x2400" 3) as (Hrun & _).
  - vm_compute. discriminate.
  - vm_compute. reflexivity.
  - intros k _. eexists. reflexivity.
  - vm_compute. lia.
  - exact Hrun.
Defined.

(** ** More on the tokenizer *)

Section Tokens.

Local Open Scope nat_scope.

Lemma tokens_cons (c : ascii) (line : list ascii) :
  tokens (c :: line) =
    if is_space c then tokens line
    else
      match line with
      | [] => [[c]]
      | c' :: _ =>
          if is_space c' then [c] :: tokens line
          else
            match tokens line with
            | tok :: toks => (c :: tok) :: toks
            | [] => [[c]]
            end
      end.
Proof. reflexivity. Qed.

(** A token is not empty and holds no whitespace. *)
Lemma tokens_wellformed (line : list ascii) :
  Forall (fun tok => tok <> [] /\ Forall (fun c => is_space c = false) tok)
         (tokens line).
Proof.
  induction line as [| c line IH]; [constructor |].
  rewrite tokens_cons. destruct (is_space c) eqn:Hc; [exact IH |].
  assert (Hone : Forall (fun tok => tok <> [] /\ Forall (fun c => is_space c = false) tok)
                        [[c]]).
  { repeat constructor; [discriminate | exact Hc]. }
  destruct line as [| c' line']; [exact Hone |].
  destruct (is_space c').
  - constructor; [| exact IH]. split; [discriminate | now repeat constructor].
  - destruct (tokens (c' :: line')) as [| tok toks]; [exact Hone |].
    apply Forall_cons in IH as [[_ Htok] Htoks].
    constructor; [| exact Htoks]. split; [discriminate | now constructor].
Qed.

Lemma tokens_no_NUL (line : list ascii) :
  Forall (fun c => c <> NUL) line ->
  Forall (fun tok => Forall (fun c => c <> NUL) tok) (tokens line).
Proof.
  induction line as [| c line IH]; intros Hnn; [constructor |].
  apply Forall_cons in Hnn as [Hc Hnn]. specialize (IH Hnn).
  rewrite tokens_cons. destruct (is_space c); [exact IH |].
  assert (Hone : Forall (fun tok => Forall (fun c => c <> NUL) tok) [[c]])
    by (repeat constructor; exact Hc).
  destruct line as [| c' line']; [exact Hone |].
  destruct (is_space c').
  - constructor; [now repeat constructor | exact IH].
  - destruct (tokens (c' :: line')) as [| tok toks]; [exact Hone |].
    apply Forall_cons in IH as [Htok Htoks].
    constructor; [now constructor | exact Htoks].
Qed.

(** A line that starts with a character other than whitespace starts
    with a token that ends at the end of the line or at whitespace. *)
Lemma first_word (c : ascii) (line : list ascii) :
  Forall (fun c => c <> NUL) (c :: line) ->
  is_space c = false ->
  exists tok r,
    c :: line = tok ++ r /\ tok <> [] /\
    Forall (fun c => is_space c = false) tok /\ starts_gap r.
Proof.
  intros Hnn Hc.
  destruct (scan_arg_spec (c :: line) [] [] Hnn) as (tok & r & Hsplit & Htok & Hr & _).
  exists tok, r. repeat split; try assumption.
  intros ->. cbn [app] in Hsplit. subst r. cbn in Hr. congruence.
Qed.

End Tokens.

(** X14.  The tokenizer uses its buffer up.  After a line of at most
    fifteen tokens has been tokenized, tokenizing the buffer again leaves
    the buffer as it is and finds no argument when the line was empty or
    started with whitespace, and one argument otherwise, however many
    tokens the line had. *)
Theorem tokenize_again (line junk : list ascii) (argv0 argv1 : list (option nat)) :
  Forall (fun c => c <> NUL) line ->
  length argv0 = MAXARGS ->
  length argv1 = MAXARGS ->
  (length (tokens line) <= 15)%nat ->
  let buf' := List.map blank line ++ NUL :: junk in
  let again :=
    match line with
    | [] => 0%nat
    | c :: _ => if is_space c then 0%nat else 1%nat
    end in
  (exists argv,
     tokenize argv0 (line ++ NUL :: junk) = Args (length (tokens line)) argv buf') /\
  (exists argv, tokenize argv1 buf' = Args again argv buf').
Proof.
  intros Hnn Hlen0 Hlen1 Hfit buf' again. split.
  - destruct (tokenize_fits line junk argv0 Hnn Hlen0) as (argv & Hp & _);
      [unfold MAXARGS; lia | eauto].
  - assert (Hempty : forall tail, exists argv,
              tokenize argv1 (NUL :: tail) = Args 0 argv (NUL :: tail)).
    { intros tail.
      destruct (tokenize_fits [] tail argv1 ltac:(constructor) Hlen1)
        as (argv & Hp & _); [cbn; unfold MAXARGS; lia | eauto]. }
    destruct line as [| c line']; [apply Hempty |].
    subst buf' again.
    destruct (is_space c) eqn:Hc.
    { assert (Hblank : blank c = NUL) by (unfold blank; now rewrite Hc).
      cbn [List.map app]. rewrite Hblank. apply Hempty. }
    destruct (first_word c line' Hnn Hc) as (tok & r & Hsplit & Hne & Htok & Hr).
    destruct (blank_gap_head r junk Hr) as [tail Htail].
    assert (Hbuf : List.map blank (c :: line') ++ NUL :: junk = tok ++ NUL :: tail).
    { rewrite Hsplit, List.map_app, (map_blank_word tok Htok), <- app_assoc.
      now rewrite Htail. }
    rewrite Hbuf.
    assert (Hone : tokens tok = [tok]).
    { rewrite <- (app_nil_r tok) at 1. now apply tokens_word. }
    destruct (tokenize_fits tok tail argv1) as (argv & Hp & _).
    + rewrite Hsplit in Hnn. now apply Forall_app in Hnn as [Hnn _].
    + exact Hlen1.
    + rewrite Hone. cbn. unfold MAXARGS. lia.
    + rewrite Hone, (map_blank_word tok Htok) in Hp. cbn [length] in Hp. eauto.
Qed.

Lemma tokenize_again_witness :
  exists argv,
    tokenize (repeat None 16)
      ["a"; "000"; "b"; "c"; "000"; "000"]%char =
      Args 1 argv ["a"; "000"; "b"; "c"; "000"; "000"]%char.
Proof.
  destruct (tokenize_again ["a"; " "; "b"; "c"; "010"]%char [] (repeat None 16)
              (repeat None 16)) as [_ Hagain].
  - no_NUL.
  - reflexivity.
  - reflexivity.
  - vm_compute. lia.
  - exact Hagain.
Defined.

(** X15.  Every argument the tokenizer hands over is a non-empty string
    without whitespace: for a line of at most fifteen tokens, each of the
    [argc] slots of [argv] points to a string of the buffer that has at
    least one character and holds neither whitespace nor a terminator,
    so the first character of an argument is never the terminator. *)
Theorem arguments_wellformed (line junk : list ascii) (argv0 : list (option nat)) :
  Forall (fun c => c <> NUL) line ->
  length argv0 = MAXARGS ->
  (length (tokens line) <= 15)%nat ->
  exists argc argv buf',
    tokenize argv0 (line ++ NUL :: junk) = Args argc argv buf' /\
    forall i, (i < argc)%nat ->
      exists off tok,
        argv !! i = Some (Some off) /\
        string_at buf' (Some off) = string_of_list_ascii tok /\
        tok <> [] /\
        Forall (fun c => c <> NUL /\ is_space c = false) tok /\
        first_char (string_at buf' (Some off)) <> NUL.
Proof.
  intros Hnn Hlen Hfit.
  destruct (tokenize_fits line junk argv0 Hnn Hlen) as (argv & Hp & _ & Hargs & _);
    [unfold MAXARGS; lia |].
  exists (length (tokens line)), argv, (List.map blank line ++ NUL :: junk).
  split; [exact Hp |]. intros i Hi.
  destruct (lookup_lt_is_Some_2 (tokens line) i Hi) as [tok Htok].
  destruct (Hargs i tok Htok) as (off & Hoff & Hnt & tail & Htail).
  pose proof (tokens_wellformed line) as Hwf.
  rewrite Forall_lookup in Hwf. destruct (Hwf i tok Htok) as [Hne Hsp].
  assert (Hstr : string_at (List.map blank line ++ NUL :: junk) (Some off) =
                 string_of_list_ascii tok).
  { cbn [string_at]. rewrite Htail. now apply cstring_token. }
  exists off, tok. split; [exact Hoff |]. split; [exact Hstr |].
  split; [exact Hne |]. split.
  - rewrite Forall_forall in *. intros ch Hch. split; [now apply Hnt | now apply Hsp].
  - rewrite Hstr. destruct tok as [| ch tok']; [contradiction |].
    cbn [string_of_list_ascii first_char]. now apply Forall_inv in Hnt.
Qed.

Lemma arguments_wellformed_witness :
  exists argc argv buf',
    tokenize (repeat None 16) (list_ascii_of_string "setpremission 0x2000 s u" ++ [NUL]) =
      Args argc argv buf' /\
    forall i, (i < argc)%nat ->
      exists off tok,
        argv !! i = Some (Some off) /\
        string_at buf' (Some off) = string_of_list_ascii tok /\
        tok <> [] /\
        Forall (fun c => c <> NUL /\ is_space c = false) tok /\
        first_char (string_at buf' (Some off)) <> NUL.
Proof.
  apply (arguments_wellformed (list_ascii_of_string "setpremission 0x2000 s u") []
           (repeat None 16)).
  - cbn. no_NUL.
  - reflexivity.
  - vm_compute. lia.
Defined.

Section Unterminated.

Local Open Scope nat_scope.

Lemma gobble_suffix (P : ascii -> Prop) (suf : list ascii) :
  forall pre pre1 suf1,
    Forall P suf -> gobble pre suf = Some (pre1, suf1) -> Forall P suf1.
Proof.
  induction suf as [| c suf IH]; intros pre pre1 suf1 HP Hg; [discriminate Hg |].
  cbn [gobble] in Hg.
  destruct (negb (Ascii.eqb c NUL) && strchr WHITESPACE c).
  - apply Forall_cons in HP as [_ HP]. exact (IH _ _ _ HP Hg).
  - injection Hg as <- <-. exact HP.
Qed.

Lemma scan_arg_suffix (P : ascii -> Prop) (suf : list ascii) :
  forall pre pre2 suf2,
    Forall P suf -> scan_arg pre suf = Some (pre2, suf2) -> Forall P suf2.
Proof.
  induction suf as [| c suf IH]; intros pre pre2 suf2 HP Hs; [discriminate Hs |].
  cbn [scan_arg] in Hs.
  destruct (negb (Ascii.eqb c NUL) && negb (strchr WHITESPACE c)).
  - apply Forall_cons in HP as [_ HP]. exact (IH _ _ _ HP Hs).
  - injection Hs as <- <-. exact HP.
Qed.

Lemma parse_args_unterminated (fuel : nat) :
  forall argc argv pre suf,
    Forall (fun c => c <> NUL) suf ->
    forall argc' argv' buf', parse_args fuel argc argv pre suf <> Args argc' argv' buf'.
Proof.
  induction fuel as [| fuel IH]; intros argc argv pre suf Hnn argc' argv' buf';
    [discriminate |].
  cbn [parse_args].
  destruct (gobble pre suf) as [[pre1 suf1] |] eqn:Hg; [| discriminate].
  pose proof (gobble_suffix _ _ _ _ _ Hnn Hg) as Hnn1.
  destruct suf1 as [| c suf1']; [discriminate |].
  rewrite (not_NUL c (Forall_inv Hnn1)).
  destruct (Nat.eqb argc (MAXARGS - 1)); [discriminate |].
  destruct (scan_arg pre1 (c :: suf1')) as [[pre2 suf2] |] eqn:Hs; [| discriminate].
  apply IH. exact (scan_arg_suffix _ _ _ _ _ Hnn1 Hs).
Qed.

End Unterminated.

(** X16.  [runcmd] depends on the terminator of its buffer.  On a buffer
    that holds no terminator byte the tokenizer never completes an
    argument vector: it either reads past the end of the buffer, or,
    when a sixteenth token starts before the end, stops with the
    too-many-arguments line; in neither case is a handler called. *)
Theorem runcmd_unterminated (K : Kernel) (fuel : nat) (argv0 : list (option nat))
    (buf : list ascii) (m : memory) :
  Forall (fun c => c <> NUL) buf ->
  (tokenize argv0 buf = BadRead /\
   runcmd K fuel argv0 buf m = mkRun OutOfBounds [] m) \/
  ((exists b, tokenize argv0 buf = TooMany b) /\
   runcmd K fuel argv0 buf m =
     mkRun (Returned 0) [Cprintf "Too many arguments (max %d)\n" [AInt 16]] m).
Proof.
  intros Hnn.
  pose proof (tokenize_finishes argv0 buf) as Hfin.
  assert (Hnot : forall argc argv buf', tokenize argv0 buf <> Args argc argv buf').
  { intros argc argv buf' Ht. unfold tokenize in Ht.
    destruct (parse_args (S (length buf)) 0 (<[0%nat := None]> argv0) [] buf)
      as [argc1 argv1 buf1 | | |] eqn:Hp; try discriminate Ht.
    exact (parse_args_unterminated _ _ _ _ _ Hnn _ _ _ Hp). }
  unfold runcmd, select.
  destruct (tokenize argv0 buf) as [argc argv buf' | b | |].
  - exfalso. exact (Hnot argc argv buf' eq_refl).
  - right. split; [eauto | reflexivity].
  - left. split; reflexivity.
  - contradiction.
Qed.

Lemma runcmd_unterminated_witness :
  runcmd demo_kernel 8 (repeat None 16) (list_ascii_of_string "help") demo_memory =
    mkRun OutOfBounds [] demo_memory.
Proof.
  destruct (runcmd_unterminated demo_kernel 8 (repeat None 16)
              (list_ascii_of_string "help") demo_memory) as [[_ Hrun] | [[b Hb] _]].
  - cbn. no_NUL.
  - exact Hrun.
  - discriminate Hb.
Defined.
